(** * Verification of the watermarking and provenance core (HTE_Anon_Tokyo)

    Shallow embedding of the Python modules

    - [src/watermark_llamacpp/statistical.py]   (greenlist predicate, sparse
      greenlist, dense and sparse z-score scorers),
    - [src/watermark_llamacpp/detector.py]      (status classification),
    - [src/watermark_llamacpp/config.py]        (statistical thresholds),
    - [src/watermark_llamacpp/policy.py]        (opt-out tokens),
    - [minimax-webui/registry/chain.py, db.py]  (simulated hash chain),
    - [minimax-webui/registry/auth.py, db.py]   (signer lookup).

    Conventions.
    - Python [int] is [Z]; Python [float] is an IEEE-754 binary64 value
      modelled by [spec_float] with the [SF64*] operations below.
    - A Python [str] is a Rocq [string]; each character is one code point
      (the model covers code points below 256).  Python [bytes] are
      [list Z] with every element in [0, 256).
    - A raised Python exception is the [inl] side of [exn + A]. *)

From Stdlib Require Import ZArith List String Ascii Bool Lia.
From Stdlib Require Import Permutation Sorted.
From Stdlib Require Import SpecFloat.
Import ListNotations.

Open Scope Z_scope.

(* ------------------------------------------------------------------ *)
(** ** Python runtime fragments *)

Module Py.

(** The exceptions the modelled code can raise. *)
Inductive exn :=
| ValueError
| TypeError
| AttributeError
| OverflowError
| ZeroDivisionError
| IndexError
| IntegrityError.

Definition result (A : Type) := (exn + A)%type.

Definition ret {A} (a : A) : result A := inr a.
Definition raise {A} (e : exn) : result A := inl e.
Definition bind {A B} (m : result A) (k : A -> result B) : result B :=
  match m with inl e => inl e | inr a => k a end.

Notation "x <- m ;; k" := (bind m (fun x => k))
  (at level 61, m at next level, right associativity).

(** Python [bytes]: a list of integers in [0, 256). *)
Definition bytes := list Z.

Definition byte_of_ascii (c : ascii) : Z := Z.of_N (N_of_ascii c).
Definition ascii_of_byte (z : Z) : ascii := ascii_of_N (Z.to_N z).

Fixpoint list_of_string (s : string) : list ascii :=
  match s with EmptyString => [] | String c s' => c :: list_of_string s' end.

Fixpoint string_of_list (l : list ascii) : string :=
  match l with [] => EmptyString | c :: l' => String c (string_of_list l') end.

(** [str.encode()] (UTF-8) for code points below 256. *)
Fixpoint encode (s : string) : bytes :=
  match s with
  | EmptyString => []
  | String c s' =>
      let z := byte_of_ascii c in
      if z <? 128 then z :: encode s'
      else Z.lor 192 (Z.shiftr z 6) :: Z.lor 128 (Z.land z 63) :: encode s'
  end.

(** [bytes.decode("ascii")] for bytes below 128. *)
Definition ascii_string_of_bytes (b : bytes) : string :=
  string_of_list (map ascii_of_byte b).

(** [str(n)] for an [int]: decimal with a leading ["-"] when negative. *)
Fixpoint digits_rev (fuel : nat) (n : Z) : list ascii :=
  match fuel with
  | O => []
  | S f =>
      let d := ascii_of_byte (48 + n mod 10) in
      if n <? 10 then [d] else d :: digits_rev f (n / 10)
  end.

Definition str_of_nonneg (n : Z) : string :=
  string_of_list (rev (digits_rev (S (Z.to_nat (Z.log2 (Z.max n 1)))) n)).

Definition str_of_int (n : Z) : string :=
  if n <? 0 then String "-" (str_of_nonneg (- n)) else str_of_nonneg n.

(** [str.lower()] on the code points below 256. *)
Definition lower_char (c : ascii) : ascii :=
  let z := byte_of_ascii c in
  if ((65 <=? z) && (z <=? 90)) || ((192 <=? z) && (z <=? 222) && negb (z =? 215))
  then ascii_of_byte (z + 32) else c.

Fixpoint lower (s : string) : string :=
  match s with EmptyString => EmptyString | String c s' => String (lower_char c) (lower s') end.

(** Lowercase hexadecimal rendering of bytes ([bytes.hex()], [hexdigest()]). *)
Definition hex_digit (z : Z) : ascii :=
  if z <? 10 then ascii_of_byte (48 + z) else ascii_of_byte (87 + z).

Fixpoint hex (b : bytes) : string :=
  match b with
  | [] => EmptyString
  | x :: b' => String (hex_digit (x / 16)) (String (hex_digit (x mod 16)) (hex b'))
  end.

(** Python [range(a, b)]. *)
Definition range (a b : Z) : list Z :=
  map (fun i => a + Z.of_nat i) (seq 0 (Z.to_nat (b - a))).

End Py.

Import Py.

(* ------------------------------------------------------------------ *)
(** ** [hashlib.sha256] and [hmac.new(key, msg, hashlib.sha256)] *)

Module Sha256.

Definition mask32 : Z := 4294967295.
Definition w32 (x : Z) : Z := Z.land x mask32.
Definition add32 (x y : Z) : Z := w32 (x + y).
Definition rotr (x : Z) (n : Z) : Z :=
  Z.lor (Z.shiftr x n) (w32 (Z.shiftl x (32 - n))).

Definition ch (x y z : Z) : Z := Z.lxor (Z.land x y) (Z.land (Z.lxor x mask32) z).
Definition maj (x y z : Z) : Z := Z.lxor (Z.lxor (Z.land x y) (Z.land x z)) (Z.land y z).
Definition bsig0 (x : Z) : Z := Z.lxor (Z.lxor (rotr x 2) (rotr x 13)) (rotr x 22).
Definition bsig1 (x : Z) : Z := Z.lxor (Z.lxor (rotr x 6) (rotr x 11)) (rotr x 25).
Definition ssig0 (x : Z) : Z := Z.lxor (Z.lxor (rotr x 7) (rotr x 18)) (Z.shiftr x 3).
Definition ssig1 (x : Z) : Z := Z.lxor (Z.lxor (rotr x 17) (rotr x 19)) (Z.shiftr x 10).

(** The round constants of FIPS 180-4, section 4.2.2: the first 32 bits
    of the fractional parts of the cube roots of the first 64 primes. *)
Definition K : list Z := [
  1116352408; 1899447441; 3049323471; 3921009573; 961987163; 1508970993;
  2453635748; 2870763221; 3624381080; 310598401; 607225278; 1426881987;
  1925078388; 2162078206; 2614888103; 3248222580; 3835390401; 4022224774;
  264347078; 604807628; 770255983; 1249150122; 1555081692; 1996064986;
  2554220882; 2821834349; 2952996808; 3210313671; 3336571891; 3584528711;
  113926993; 338241895; 666307205; 773529912; 1294757372; 1396182291;
  1695183700; 1986661051; 2177026350; 2456956037; 2730485921; 2820302411;
  3259730800; 3345764771; 3516065817; 3600352804; 4094571909; 275423344;
  430227734; 506948616; 659060556; 883997877; 958139571; 1322822218;
  1537002063; 1747873779; 1955562222; 2024104815; 2227730452; 2361852424;
  2428436474; 2756734187; 3204031479; 3329325298].

(** The initial hash value of FIPS 180-4, section 5.3.3: the first 32
    bits of the fractional parts of the square roots of the first 8 primes. *)
Definition H0 : list Z := [
  1779033703; 3144134277; 1013904242; 2773480762;
  1359893119; 2600822924; 528734635; 1541459225].

(** Big-endian 32-bit words of a 64-byte block. *)
Fixpoint words_of_bytes (b : bytes) : list Z :=
  match b with
  | b0 :: b1 :: b2 :: b3 :: rest =>
      (b0 * 16777216 + b1 * 65536 + b2 * 256 + b3) :: words_of_bytes rest
  | _ => []
  end.

Definition bytes_of_word (w : Z) : bytes :=
  [Z.shiftr w 24 mod 256; Z.shiftr w 16 mod 256; Z.shiftr w 8 mod 256; w mod 256].

(** Message schedule: the 16 block words extended to 64. *)
Fixpoint schedule (n : nat) (w : list Z) : list Z :=
  match n with
  | O => w
  | S n' =>
      let t := List.length w in
      let wt := add32 (add32 (ssig1 (nth (t - 2) w 0)) (nth (t - 7) w 0))
                      (add32 (ssig0 (nth (t - 15) w 0)) (nth (t - 16) w 0)) in
      schedule n' (w ++ [wt])
  end.

Definition round (st : list Z) (kw : Z * Z) : list Z :=
  match st with
  | [a; b; c; d; e; f; g; h] =>
      let t1 := add32 (add32 (add32 h (bsig1 e)) (add32 (ch e f g) (fst kw))) (snd kw) in
      let t2 := add32 (bsig0 a) (maj a b c) in
      [add32 t1 t2; a; b; c; add32 d t1; e; f; g]
  | _ => st
  end.

Definition compress (hs : list Z) (block : bytes) : list Z :=
  let w := schedule 48 (words_of_bytes block) in
  let st := fold_left round (combine K w) hs in
  map (fun p => add32 (fst p) (snd p)) (combine hs st).

Fixpoint blocks (fuel : nat) (b : bytes) : list bytes :=
  match fuel with
  | O => []
  | S f => match b with [] => [] | _ => firstn 64 b :: blocks f (skipn 64 b) end
  end.

Definition pad (msg : bytes) : bytes :=
  let l := Z.of_nat (List.length msg) in
  let zeros := (55 - l) mod 64 in
  msg ++ [128] ++ repeat 0 (Z.to_nat zeros)
      ++ flat_map bytes_of_word [Z.shiftr (8 * l) 32 mod 4294967296; (8 * l) mod 4294967296].

(** [hashlib.sha256(msg).digest()] *)
Definition digest (msg : bytes) : bytes :=
  let p := pad msg in
  flat_map bytes_of_word (fold_left compress (blocks (List.length p) p) H0).

(** [hashlib.sha256(msg).hexdigest()] *)
Definition hexdigest (msg : bytes) : string := hex (digest msg).

(** [hmac.new(key, msg, hashlib.sha256).digest()]: a key longer than the
    64-byte block is hashed first, then the key is padded with zero bytes
    to the block size. *)
Definition hmac (key msg : bytes) : bytes :=
  let k := if (64 <? List.length key)%nat then digest key else key in
  let k0 := k ++ repeat 0 (64 - List.length k) in
  digest (map (Z.lxor 92) k0 ++ digest (map (Z.lxor 54) k0 ++ msg)).

End Sha256.

(* ------------------------------------------------------------------ *)
(** ** [registry/chain.py] over the [chain_blocks] table of [registry/db.py] *)

Module Chain.

(** [GENESIS_PREV_HASH = "0" * 64] *)
Fixpoint zeros (n : nat) : string :=
  match n with O => EmptyString | S n' => String "0" (zeros n') end.
Definition GENESIS_PREV_HASH : string := zeros 64.

(** A row of [chain_blocks]. *)
Record block := mkBlock {
  block_num : Z;
  prev_hash : string;
  tx_hash : string;
  data_hash : string;
  issuer_id : Z;
  signature_hex : string;
  payload_json : string;
  timestamp : string
}.

(** The table: rows in insertion order, which is ascending [block_num],
    and the AUTOINCREMENT counter of [sqlite_sequence]. *)
Record store := mkStore { blocks : list block; seq : Z }.

Definition empty_store : store := mkStore [] 0.

Record receipt := mkReceipt {
  r_tx_hash : string;
  r_block_num : Z;
  r_data_hash : string;
  r_issuer_id : Z;
  r_timestamp : string
}.

(** [get_latest_block]: [ORDER BY block_num DESC LIMIT 1]. *)
Definition get_latest_block (st : store) : option block :=
  last (map Some (blocks st)) None.

(** [insert_block]: the [timestamp] column is not supplied, so SQLite fills
    it with its default [datetime('now')], given here as [db_now].  A
    duplicate [tx_hash] violates the UNIQUE constraint. *)
Definition insert_block (st : store) (prev tx dh : string) (iid : Z) (sig pj : string)
    (db_now : string) : result (Z * store) :=
  if existsb (fun b => String.eqb (tx_hash b) tx) (blocks st) then raise IntegrityError
  else
    let n := seq st + 1 in
    ret (n, mkStore (blocks st ++ [mkBlock n prev tx dh iid sig pj db_now]) n).

(** [SimulatedChain.anchor].  [ts] is [datetime.now(timezone.utc).isoformat()]
    read by Python, [db_now] the SQLite clock read at insertion and
    [payload_json] the [json.dumps(metadata or {})] text.  On an exception
    the transaction is rolled back, leaving the store unchanged. *)
Definition anchor (st : store) (data_hash : string) (issuer_id : Z)
    (signature_hex payload_json ts db_now : string) : result (receipt * store) :=
  let prev_hash :=
    match get_latest_block st with Some b => tx_hash b | None => GENESIS_PREV_HASH end in
  let preimage := (prev_hash ++ data_hash ++ str_of_int issuer_id ++ ts)%string in
  let tx := Sha256.hexdigest (encode preimage) in
  r <- insert_block st prev_hash tx data_hash issuer_id signature_hex payload_json db_now ;;
  let '(n, st') := r in
  ret (mkReceipt tx n data_hash issuer_id ts, st').

(** One call of [anchor] with its clock readings. *)
Record anchor_call := mkCall {
  c_data_hash : string;
  c_issuer_id : Z;
  c_signature_hex : string;
  c_payload_json : string;
  c_ts : string;
  c_db_now : string
}.

Definition anchor_call_on (st : store) (c : anchor_call) : result (receipt * store) :=
  anchor st (c_data_hash c) (c_issuer_id c) (c_signature_hex c) (c_payload_json c)
    (c_ts c) (c_db_now c).

(** A sequence of calls; a call that raised leaves the store as it was. *)
Fixpoint run (st : store) (cs : list anchor_call) : store :=
  match cs with
  | [] => st
  | c :: cs' =>
      match anchor_call_on st c with
      | inr (_, st') => run st' cs'
      | inl _ => run st cs'
      end
  end.

(** The [for i in range(1, len(blocks))] loop of [validate_chain]. *)
Fixpoint check_links (prev : block) (rest : list block) : option (block * block) :=
  match rest with
  | [] => None
  | b :: rest' =>
      if String.eqb (prev_hash b) (tx_hash prev) then check_links b rest' else Some (prev, b)
  end.

(** [SimulatedChain.validate_chain] *)
Definition validate_chain (st : store) : bool * string :=
  match blocks st with
  | [] => (true, "empty chain"%string)
  | b0 :: rest =>
      if negb (String.eqb (prev_hash b0) GENESIS_PREV_HASH) then
        (false, ("block " ++ str_of_int (block_num b0) ++ ": invalid genesis prev_hash")%string)
      else
        match check_links b0 rest with
        | Some (p, b) =>
            (false, ("block " ++ str_of_int (block_num b) ++ ": prev_hash mismatch (expected "
                      ++ tx_hash p ++ ", got " ++ prev_hash b ++ ")")%string)
        | None =>
            (true, ("valid chain with " ++ str_of_int (Z.of_nat (List.length (blocks st)))
                      ++ " blocks")%string)
        end
  end.

(** The property the claim states for the stored table: the linkage of
    [prev_hash] and, for every row, [tx_hash] recomputed from the row's own
    fields. *)
Definition row_hash_ok (b : block) : bool :=
  String.eqb (tx_hash b)
    (Sha256.hexdigest (encode (prev_hash b ++ data_hash b ++ str_of_int (issuer_id b)
                                ++ timestamp b)%string)).

End Chain.

(* ------------------------------------------------------------------ *)
(** ** Python [float]: IEEE-754 binary64 *)

Module F64.

Definition prec : Z := 53.
Definition emax : Z := 1024.

Definition mul := SFmul prec emax.
Definition add := SFadd prec emax.
Definition sub := SFsub prec emax.
Definition div := SFdiv prec emax.
Definition sqrt := SFsqrt prec emax.
Definition leb := SFleb.
Definition ltb := SFltb.
Definition eqb := SFeqb.

(** The binary64 number nearest to [m * 2^e] (round half to even); a
    float literal of the source is [lit] of its exact value. *)
Definition lit (m e : Z) : spec_float := binary_normalize prec emax m e false.

Definition zero : spec_float := S754_zero false.
Definition one : spec_float := lit 1 0.
Definition half : spec_float := lit 1 (-1).
Definition two : spec_float := lit 2 0.

(** [float(n)] for an [int]: correctly rounded; [OverflowError] when the
    rounded value is out of range. *)
Definition of_int (n : Z) : result spec_float :=
  match binary_normalize prec emax n 0 false with
  | S754_infinity _ => raise OverflowError
  | f => ret f
  end.

(** [int(x)] for a [float]: truncation toward zero. *)
Definition to_int (f : spec_float) : result Z :=
  match f with
  | S754_zero _ => ret 0
  | S754_infinity _ => raise OverflowError
  | S754_nan => raise ValueError
  | S754_finite s m e =>
      let v := Z.shiftl (Zpos m) e in
      ret (if s then - v else v)
  end.

(** [int * float] and [float * int]: the [int] is converted first. *)
Definition mul_int (n : Z) (x : spec_float) : result spec_float :=
  fn <- of_int n ;; ret (mul fn x).

(** [int / float]: [ZeroDivisionError] on a zero divisor. *)
Definition div_int (n : Z) (y : spec_float) : result spec_float :=
  fn <- of_int n ;;
  match y with S754_zero _ => raise ZeroDivisionError | _ => ret (div fn y) end.

(** [math.sqrt]: [ValueError] on a negative argument. *)
Definition py_sqrt (x : spec_float) : result spec_float :=
  if ltb x zero then raise ValueError else ret (sqrt x).

End F64.

(* ------------------------------------------------------------------ *)
(** ** [watermark_llamacpp/keys.py]: per-context seed *)

Module Keys.

(** [b"|".join(str(t).encode("ascii") for t in context_tokens)] *)
Fixpoint join_tokens (ts : list Z) : bytes :=
  match ts with
  | [] => []
  | [t] => encode (str_of_int t)
  | t :: ts' => encode (str_of_int t) ++ [124] ++ join_tokens ts'
  end.

(** [int.from_bytes(b, "big", signed=False)] *)
Definition from_bytes_big (b : bytes) : Z := fold_left (fun acc x => acc * 256 + x) b 0.

(** [derive_context_seed(derived_key, context_tokens)] *)
Definition derive_context_seed (derived_key : bytes) (context_tokens : list Z) : Z :=
  from_bytes_big (firstn 8 (Sha256.hmac derived_key (join_tokens context_tokens))).

End Keys.

(* ------------------------------------------------------------------ *)
(** ** [watermark_llamacpp/statistical.py] *)

Module Statistical.

Definition MASK63 : Z := 9223372036854775807.
Definition A : Z := 2862933555777941757.
Definition B : Z := 3037000493.

(** [_mix63] *)
Definition mix63 (x : Z) : Z := Z.land (A * Z.land x MASK63 + B) MASK63.

(** [int(greenlist_ratio * _MASK63)] *)
Definition threshold (greenlist_ratio : spec_float) : result Z :=
  p <- F64.mul_int MASK63 greenlist_ratio ;; F64.to_int p.

(** [token_is_green] *)
Definition token_is_green (token_id seed : Z) (greenlist_ratio : spec_float) : result bool :=
  t <- threshold greenlist_ratio ;;
  let h := mix63 (Z.lxor token_id (Z.land seed MASK63)) in
  ret (h <? t).

(** [heapq.nsmallest(n, iterable, key)], documented as equivalent to
    [sorted(iterable, key=key)[:n]]; [sorted] is stable, as is this
    insertion sort (an element goes before the equal keys after it). *)
Section Sort.
Variable key : Z -> Z.

Fixpoint insert (x : Z) (l : list Z) : list Z :=
  match l with
  | [] => [x]
  | y :: l' => if key x <=? key y then x :: y :: l' else y :: insert x l'
  end.

Fixpoint sort (l : list Z) : list Z :=
  match l with [] => [] | x :: l' => insert x (sort l') end.

Definition nsmallest (n : Z) (l : list Z) : list Z := firstn (Z.to_nat n) (sort l).
End Sort.

(** [int(vocab_size * greenlist_ratio)] clipped: [max(1, min(k, m, v))]. *)
Definition sparse_k (vocab_size : Z) (greenlist_ratio : spec_float) (max_bias_tokens : Z)
    : result Z :=
  p <- F64.mul_int vocab_size greenlist_ratio ;;
  k <- F64.to_int p ;;
  ret (Z.max 1 (Z.min k (Z.min max_bias_tokens vocab_size))).

(** [select_sparse_green_ids] *)
Definition select_sparse_green_ids (vocab_size seed : Z) (greenlist_ratio : spec_float)
    (max_bias_tokens : Z) : result (list Z) :=
  if vocab_size <=? 0 then ret []
  else
    k <- sparse_k vocab_size greenlist_ratio max_bias_tokens ;;
    ret (nsmallest (fun tid => mix63 (Z.lxor tid (Z.land seed MASK63))) k (range 0 vocab_size)).

(** [StatisticalScore] *)
Record StatisticalScore := mkScore {
  total_scored : Z;
  green_hits : Z;
  expected : spec_float;
  z_score : spec_float;
  p_value_one_sided : spec_float
}.

(** [StatisticalScore(0, 0, 0.0, 0.0, 1.0)] *)
Definition empty_score : StatisticalScore := mkScore 0 0 F64.zero F64.zero F64.one.

(** Python [l[i]] on a list: negative indices count from the end. *)
Definition getitem (l : list Z) (i : Z) : result Z :=
  let n := Z.of_nat (List.length l) in
  let j := if i <? 0 then i + n else i in
  if (0 <=? j) && (j <? n) then ret (nth (Z.to_nat j) l 0) else raise IndexError.

(** Python [l[a:b]]. *)
Definition slice (l : list Z) (a b : Z) : list Z :=
  let n := Z.of_nat (List.length l) in
  let norm i := if i <? 0 then Z.max 0 (i + n) else Z.min i n in
  let a' := norm a in
  let b' := norm b in
  firstn (Z.to_nat (b' - a')) (skipn (Z.to_nat a') l).

Section Scoring.
(** [math.erfc] of the C library. *)
Variable erfc : spec_float -> spec_float.

(** The shared tail of both scorers: [expected], [var], [z] and [p]. *)
Definition finish (n hits : Z) (p_green : spec_float) : result StatisticalScore :=
  expected <- F64.mul_int n p_green ;;
  v0 <- F64.mul_int n p_green ;;
  let var := F64.mul v0 (F64.sub F64.one p_green) in
  z <- (if F64.leb var F64.zero then ret F64.zero
        else fh <- F64.of_int hits ;;
             sq <- F64.py_sqrt var ;;
             ret (F64.div (F64.sub fh expected) sq)) ;;
  s2 <- F64.py_sqrt F64.two ;;
  let p := F64.mul F64.half (erfc (F64.div z s2)) in
  ret (mkScore n hits expected z p).

(** One iteration of the loops: is the token at [idx] a hit? *)
Definition dense_hit (context_width : Z) (greenlist_ratio : spec_float)
    (token_ids : list Z) (derived_key : bytes) (idx : Z) : result bool :=
  let context := slice token_ids (idx - context_width) idx in
  let seed := Keys.derive_context_seed derived_key context in
  t <- getitem token_ids idx ;;
  token_is_green t seed greenlist_ratio.

Definition sparse_hit (vocab_size context_width : Z) (greenlist_ratio : spec_float)
    (max_bias_tokens : Z) (token_ids : list Z) (derived_key : bytes) (idx : Z)
    : result bool :=
  let context := slice token_ids (idx - context_width) idx in
  let seed := Keys.derive_context_seed derived_key context in
  green <- select_sparse_green_ids vocab_size seed greenlist_ratio max_bias_tokens ;;
  t <- getitem token_ids idx ;;
  ret (existsb (Z.eqb t) green).

(** [for idx in ...: if hit: hits += 1; n += 1] *)
Fixpoint count_loop (hit : Z -> result bool) (idxs : list Z) (hits n : Z)
    : result (Z * Z) :=
  match idxs with
  | [] => ret (hits, n)
  | idx :: idxs' =>
      h <- hit idx ;;
      count_loop hit idxs' (if h then hits + 1 else hits) (n + 1)
  end.

(** [StatisticalWatermarkDetector(context_width, greenlist_ratio).score] *)
Definition score (context_width : Z) (greenlist_ratio : spec_float)
    (token_ids : list Z) (derived_key : bytes) : result StatisticalScore :=
  let len := Z.of_nat (List.length token_ids) in
  if len <=? context_width then ret empty_score
  else
    r <- count_loop (dense_hit context_width greenlist_ratio token_ids derived_key)
           (range context_width len) 0 0 ;;
    let '(hits, n) := r in
    finish n hits greenlist_ratio.

(** [score_sparse_watermark] *)
Definition score_sparse_watermark (token_ids : list Z) (derived_key : bytes)
    (vocab_size context_width : Z) (greenlist_ratio : spec_float)
    (max_bias_tokens : Z) : result StatisticalScore :=
  let len := Z.of_nat (List.length token_ids) in
  if len <=? context_width then ret empty_score
  else
    k <- sparse_k vocab_size greenlist_ratio max_bias_tokens ;;
    p_green <- (fv <- F64.of_int vocab_size ;; F64.div_int k fv) ;;
    r <- count_loop
           (sparse_hit vocab_size context_width greenlist_ratio max_bias_tokens
              token_ids derived_key)
           (range context_width len) 0 0 ;;
    let '(hits, n) := r in
    finish n hits p_green.
End Scoring.

End Statistical.

(* ------------------------------------------------------------------ *)
(** ** [watermark_llamacpp/config.py] and [detector.py]: classification *)

Module Detector.

(** Python [a >= b] on floats. *)
Definition f_ge (a b : spec_float) : bool :=
  match SFcompare a b with Some (Gt | Eq) => true | _ => false end.

(** [StatisticalConfig] *)
Record StatisticalConfig := mkStatCfg {
  context_width : Z;
  greenlist_ratio : spec_float;
  bias_delta : spec_float;
  max_bias_tokens : Z;
  z_threshold_verified : spec_float;
  z_threshold_likely : spec_float
}.

(** The dataclass defaults: [2, 0.25, 1.0, 2048, 4.0, 2.5]. *)
Definition default_statistical : StatisticalConfig :=
  mkStatCfg 2 (F64.lit 1 (-2)) F64.one 2048 (F64.lit 4 0) (F64.lit 5 (-1)).

Section Verify.
(** The decoded metadata record and [unpack_payload] of [payload.py]. *)
Context {Meta : Type}.
Variable unpack_payload : Z -> Meta * bool.

(** [for candidate in decoded: meta, valid = unpack_payload(candidate);
    if valid: payload = ...; break] *)
Fixpoint first_valid (decoded : list Z) : option Meta :=
  match decoded with
  | [] => None
  | c :: rest => let '(meta, valid) := unpack_payload c in
                 if valid then Some meta else first_valid rest
  end.

(** The [status] computation at the end of [WatermarkDetector.verify],
    given the zero-width candidates and the best statistical score. *)
Definition verify_status (cfg : StatisticalConfig) (decoded : list Z)
    (stat_score : option Statistical.StatisticalScore) : string :=
  match first_valid decoded with
  | Some _ => "verified"
  | None =>
      match stat_score with
      | Some s =>
          if f_ge (Statistical.z_score s) (z_threshold_verified cfg) then "verified"
          else if f_ge (Statistical.z_score s) (z_threshold_likely cfg) then "likely"
          else "none"
      | None => "none"
      end
  end.
End Verify.

End Detector.

(* ------------------------------------------------------------------ *)
(** ** [registry/auth.py] over the [companies] table of [registry/db.py] *)

Module Auth.

(** A row of [companies]. *)
Record company := mkCompany {
  id : Z;
  name : string;
  issuer_id : Z;
  eth_address : string;
  public_key_hex : string;
  active : Z;
  created_at : string
}.

Record VerifiedSigner := mkSigner {
  s_issuer_id : Z;
  s_name : string;
  s_eth_address : string
}.

(** [get_company_by_address]: [WHERE eth_address = ? AND active = 1],
    [fetchone()]. *)
Definition get_company_by_address (db : list company) (addr : string) : option company :=
  find (fun c => String.eqb (eth_address c) addr && (active c =? 1)) db.

(** [list_companies]: [SELECT * FROM companies ORDER BY id]; the table is
    kept in [id] order. *)
Definition list_companies (db : list company) : list company := db.

Definition signer_of (c : company) : VerifiedSigner :=
  mkSigner (issuer_id c) (name c) (eth_address c).

(** [verify_signature_by_address].  [recover_signer] is the
    [eth_account] recovery of [auth.recover_signer]; an exception there
    yields [None]. *)
Definition verify_signature_by_address
    (recover_signer : string -> string -> result string) (db : list company)
    (data_hash_hex signature_hex : string) : option VerifiedSigner :=
  match recover_signer data_hash_hex signature_hex with
  | inl _ => None
  | inr recovered_address =>
      match get_company_by_address db recovered_address with
      | None =>
          match find (fun c => String.eqb (lower (eth_address c)) (lower recovered_address))
                     (list_companies db) with
          | Some c => Some (signer_of c)
          | None => None
          end
      | Some company => Some (signer_of company)
      end
  end.

End Auth.

(* ------------------------------------------------------------------ *)
(** ** [base64.urlsafe_b64encode] and [base64.urlsafe_b64decode] *)

Module B64.

(** The URL-safe alphabet: [A-Z a-z 0-9 - _]. *)
Definition enc_char (v : Z) : ascii :=
  if v <? 26 then ascii_of_byte (65 + v)
  else if v <? 52 then ascii_of_byte (97 + (v - 26))
  else if v <? 62 then ascii_of_byte (48 + (v - 52))
  else if v =? 62 then "-"%char else "_"%char.

(** [base64.urlsafe_b64encode(data).decode("ascii")], with ["="] padding. *)
Fixpoint encode_chars (b : bytes) : list ascii :=
  match b with
  | [] => []
  | [x] => [enc_char (Z.shiftr x 2); enc_char (Z.shiftl (Z.land x 3) 4); "="%char; "="%char]
  | [x; y] =>
      [enc_char (Z.shiftr x 2); enc_char (Z.lor (Z.shiftl (Z.land x 3) 4) (Z.shiftr y 4));
       enc_char (Z.shiftl (Z.land y 15) 2); "="%char]
  | x :: y :: z :: rest =>
      enc_char (Z.shiftr x 2) :: enc_char (Z.lor (Z.shiftl (Z.land x 3) 4) (Z.shiftr y 4))
      :: enc_char (Z.lor (Z.shiftl (Z.land y 15) 2) (Z.shiftr z 6))
      :: enc_char (Z.land z 63) :: encode_chars rest
  end.

(** [str.rstrip("=")] *)
Definition rstrip_eq (l : list ascii) : list ascii :=
  rev ((fix drop (r : list ascii) := match r with
        | c :: r' => if Ascii.eqb c "="%char then drop r' else r
        | [] => [] end) (rev l)).

(** [_b64url_encode] of [policy.py]. *)
Definition b64url_encode (b : bytes) : string := string_of_list (rstrip_eq (encode_chars b)).

(** The decoding table of [binascii.a2b_base64] after the URL-safe
    translation ["-" -> "+"], ["_" -> "/"]: [None] for characters that are
    not in the alphabet. *)
Definition dec_char (c : ascii) : option Z :=
  let z := byte_of_ascii c in
  if (65 <=? z) && (z <=? 90) then Some (z - 65)
  else if (97 <=? z) && (z <=? 122) then Some (z - 71)
  else if (48 <=? z) && (z <=? 57) then Some (z + 4)
  else if (z =? 43) || (z =? 45) then Some 62
  else if (z =? 47) || (z =? 95) then Some 63
  else None.

(** The non-strict loop of [binascii.a2b_base64]: state [quad_pos],
    [leftchar], [pads] and the output so far (reversed).  A ["="] seen
    at [quad_pos >= 2] counts towards the padding and completes the input
    once [quad_pos + pads >= 4]; characters outside the alphabet are
    skipped. *)
Fixpoint a2b_loop (cs : list ascii) (quad_pos leftchar pads : Z) (out : list Z)
    : result bytes :=
  match cs with
  | [] =>
      if quad_pos =? 0 then ret (rev out)
      else raise ValueError  (* binascii.Error: invalid length or padding *)
  | c :: cs' =>
      if Ascii.eqb c "="%char then
        if 2 <=? quad_pos then
          if 4 <=? quad_pos + (pads + 1) then ret (rev out)
          else a2b_loop cs' quad_pos leftchar (pads + 1) out
        else a2b_loop cs' quad_pos leftchar pads out
      else
        match dec_char c with
        | None => a2b_loop cs' quad_pos leftchar pads out
        | Some v =>
            if quad_pos =? 0 then a2b_loop cs' 1 v 0 out
            else if quad_pos =? 1 then
              a2b_loop cs' 2 (Z.land v 15) 0 (Z.lor (Z.shiftl leftchar 2) (Z.shiftr v 4) :: out)
            else if quad_pos =? 2 then
              a2b_loop cs' 3 (Z.land v 3) 0 (Z.lor (Z.shiftl leftchar 4) (Z.shiftr v 2) :: out)
            else
              a2b_loop cs' 0 0 0 (Z.lor (Z.shiftl leftchar 6) v :: out)
        end
  end.

(** [base64.urlsafe_b64decode(s)] for a [str]: [ValueError] on a
    character outside ASCII. *)
Definition urlsafe_b64decode (s : string) : result bytes :=
  let cs := list_of_string s in
  if existsb (fun c => 128 <=? byte_of_ascii c) cs then raise ValueError
  else a2b_loop cs 0 0 0 [].

Fixpoint eqs (n : nat) : string := match n with O => EmptyString | S n' => String "=" (eqs n') end.

(** [_b64url_decode] of [policy.py]: re-pad to a multiple of 4, decode. *)
Definition b64url_decode (data : string) : result bytes :=
  let n := Z.of_nat (String.length data) in
  let pad := eqs (Z.to_nat ((4 - n mod 4) mod 4)) in
  urlsafe_b64decode (data ++ pad).

End B64.

(* ------------------------------------------------------------------ *)
(** ** [json.dumps(..., separators=(",", ":"), sort_keys=True)] and [json.loads]

    JSON values without floats: [null], booleans, [int], [str] (code points
    below 256), lists and dicts.  A dict is its list of (key, value) pairs in
    insertion order; [dict_get] returns the last binding of a key, which is
    what [dict(pairs).get(key)] returns for the pairs [json.loads] reads. *)

Module Json.

Local Set Warnings "-register-all".

Inductive jvalue :=
| JNull
| JBool (b : bool)
| JInt (z : Z)
| JStr (s : string)
| JList (l : list jvalue)
| JObj (kvs : list (string * jvalue)).

Definition dq : ascii := ascii_of_byte 34.
Definition bsl : ascii := ascii_of_byte 92.


Section SortBy.
Context {A : Type} (key : A -> string).


End SortBy.






(** The items of a list or a dict, encoded in order; the first error
    is raised. *)
Section EmitList.
Context {A : Type} (e : A -> result (list ascii)).

End EmitList.



(** The scanner of [json.loads] (the C scanner of CPython, strict mode),
    on ASCII text. *)
Definition is_ws (c : ascii) : bool :=
  let z := byte_of_ascii c in (z =? 32) || (z =? 9) || (z =? 10) || (z =? 13).

Fixpoint skip_ws (cs : list ascii) : list ascii :=
  match cs with c :: r => if is_ws c then skip_ws r else cs | [] => [] end.

Definition is_digit (c : ascii) : bool :=
  let z := byte_of_ascii c in (48 <=? z) && (z <=? 57).

Fixpoint span_digits (cs : list ascii) : list ascii * list ascii :=
  match cs with
  | c :: r => if is_digit c then let '(ds, rest) := span_digits r in (c :: ds, rest) else ([], cs)
  | [] => ([], [])
  end.

Definition digits_value (ds : list ascii) : Z :=
  fold_left (fun acc c => acc * 10 + (byte_of_ascii c - 48)) ds 0.

(** The integer alternative of [NUMBER_RE], ["-"?("0"|[1-9][0-9]* )], with
    the 4300-digit limit of [int(str)].  A fraction or an exponent makes a
    float, which this model leaves out: the scanner stops before the ["."]
    or ["e"], where no continuation of a value accepts it.  A digit after
    a leading ["0"] is likewise never accepted after the value. *)
Definition parse_number (cs : list ascii) : option (jvalue * list ascii) :=
  let '(neg, cs1) :=
    match cs with
    | c :: r => if Ascii.eqb c "-"%char then (true, r) else (false, cs)
    | [] => (false, cs)
    end in
  let '(ds, rest) := span_digits cs1 in
  let n := digits_value ds in
  let ok := Some (JInt (if neg then - n else n), rest) in
  match ds with
  | [] => None
  | d0 :: _ :: _ => if Ascii.eqb d0 "0"%char then None
                    else if 4300 <? Z.of_nat (List.length ds) then None else ok
  | _ => ok
  end.

Definition hex_val (c : ascii) : option Z :=
  let z := byte_of_ascii c in
  if (48 <=? z) && (z <=? 57) then Some (z - 48)
  else if (97 <=? z) && (z <=? 102) then Some (z - 87)
  else if (65 <=? z) && (z <=? 70) then Some (z - 55)
  else None.

(** [scanstring] after the opening quote.  A [\uXXXX] escape above 255
    lies outside the modelled strings. *)
Fixpoint parse_str (cs : list ascii) (acc : list ascii) : option (string * list ascii) :=
  match cs with
  | [] => None
  | c :: r =>
      if Ascii.eqb c dq then Some (string_of_list (rev acc), r)
      else if Ascii.eqb c bsl then
        match r with
        | [] => None
        | e :: r' =>
            if Ascii.eqb e dq then parse_str r' (dq :: acc)
            else if Ascii.eqb e bsl then parse_str r' (bsl :: acc)
            else if Ascii.eqb e "/"%char then parse_str r' ("/"%char :: acc)
            else if Ascii.eqb e "b"%char then parse_str r' (ascii_of_byte 8 :: acc)
            else if Ascii.eqb e "f"%char then parse_str r' (ascii_of_byte 12 :: acc)
            else if Ascii.eqb e "n"%char then parse_str r' (ascii_of_byte 10 :: acc)
            else if Ascii.eqb e "r"%char then parse_str r' (ascii_of_byte 13 :: acc)
            else if Ascii.eqb e "t"%char then parse_str r' (ascii_of_byte 9 :: acc)
            else if Ascii.eqb e "u"%char then
              match r' with
              | h1 :: h2 :: h3 :: h4 :: r'' =>
                  match hex_val h1, hex_val h2, hex_val h3, hex_val h4 with
                  | Some a, Some b, Some c', Some d =>
                      let v := ((a * 16 + b) * 16 + c') * 16 + d in
                      if v <? 256 then parse_str r'' (ascii_of_byte v :: acc) else None
                  | _, _, _, _ => None
                  end
              | _ => None
              end
            else None
        end
      else if byte_of_ascii c <? 32 then None
      else parse_str r (c :: acc)
  end.

Fixpoint strip_prefix (p cs : list ascii) : option (list ascii) :=
  match p, cs with
  | [], _ => Some cs
  | a :: p', c :: cs' => if Ascii.eqb a c then strip_prefix p' cs' else None
  | _ :: _, [] => None
  end.

(** The loops of [_parse_array] and [_parse_object] after the first
    character of the first item, with [value] scanning one value; [g]
    bounds the number of items. *)
Section Items.
Variable value : list ascii -> option (jvalue * list ascii).

Fixpoint elems (g : nat) (cs : list ascii) (acc : list jvalue) : option (jvalue * list ascii) :=
  match g with
  | O => None
  | S g' =>
    match value cs with
    | None => None
    | Some (v, r1) =>
      match skip_ws r1 with
      | c1 :: r2 =>
        if Ascii.eqb c1 ","%char then elems g' (skip_ws r2) (v :: acc)
        else if Ascii.eqb c1 "]"%char then Some (JList (rev (v :: acc)), r2)
        else None
      | [] => None
      end
    end
  end.

Fixpoint members (g : nat) (cs : list ascii) (acc : list (string * jvalue))
    : option (jvalue * list ascii) :=
  match g with
  | O => None
  | S g' =>
    match cs with
    | [] => None
    | c0 :: r0 =>
      if Ascii.eqb c0 dq then
        match parse_str r0 [] with
        | None => None
        | Some (k, r1) =>
          match skip_ws r1 with
          | c1 :: r2 =>
            if Ascii.eqb c1 ":"%char then
              match value (skip_ws r2) with
              | None => None
              | Some (v, r3) =>
                match skip_ws r3 with
                | c3 :: r4 =>
                  if Ascii.eqb c3 ","%char then members g' (skip_ws r4) ((k, v) :: acc)
                  else if Ascii.eqb c3 "}"%char then Some (JObj (rev ((k, v) :: acc)), r4)
                  else None
                | [] => None
                end
              end
            else None
          | [] => None
          end
        end
      else None
    end
  end.
End Items.

(** [scan_once]: one value, returning the rest of the input. *)
Fixpoint parse_value (fuel : nat) (cs : list ascii) : option (jvalue * list ascii) :=
  match fuel with
  | O => None
  | S f =>
    match cs with
    | [] => None
    | c :: r =>
      if Ascii.eqb c dq then
        match parse_str r [] with Some (s, r') => Some (JStr s, r') | None => None end
      else if Ascii.eqb c "["%char then
        match skip_ws r with
        | [] => None
        | c' :: r' =>
          if Ascii.eqb c' "]"%char then Some (JList [], r')
          else elems (parse_value f) f (c' :: r') []
        end
      else if Ascii.eqb c "{"%char then
        match skip_ws r with
        | [] => None
        | c' :: r' =>
          if Ascii.eqb c' "}"%char then Some (JObj [], r')
          else members (parse_value f) f (c' :: r') []
        end
      else if Ascii.eqb c "n"%char then
        match strip_prefix (list_of_string "ull") r with Some r' => Some (JNull, r') | None => None end
      else if Ascii.eqb c "t"%char then
        match strip_prefix (list_of_string "rue") r with Some r' => Some (JBool true, r') | None => None end
      else if Ascii.eqb c "f"%char then
        match strip_prefix (list_of_string "alse") r with Some r' => Some (JBool false, r') | None => None end
      else parse_number cs
    end
  end.

(** [json.loads(b)] for [bytes].  Inputs with a byte outside [1, 127]
    are reported as [ValueError]: Python decodes some of them (UTF-8 text,
    UTF-16 or UTF-32 text detected from NUL bytes), which this model leaves
    out, as it leaves out floats. *)
Definition loads (b : bytes) : result jvalue :=
  if existsb (fun z => (z =? 0) || (128 <=? z)) b then raise ValueError
  else
    let cs := map ascii_of_byte b in
    match parse_value (S (List.length cs)) (skip_ws cs) with
    | Some (v, r) => match skip_ws r with [] => ret v | _ :: _ => raise ValueError end
    | None => raise ValueError
    end.

(** [dict.get(k)]: the last binding of [k]. *)
Definition dict_get (k : string) (kvs : list (string * jvalue)) : option jvalue :=
  match rev (filter (fun p => String.eqb (fst p) k) kvs) with
  | p :: _ => Some (snd p)
  | [] => None
  end.

End Json.

(* ------------------------------------------------------------------ *)
(** ** [policy.py]: signed opt-out tokens *)

Module Policy.
Import Json.

(** [int(s)] for a [str]: surrounding whitespace, an optional sign,
    decimal digits with single underscores between them, at most 4300
    digits; [ValueError] otherwise. *)
Definition is_space (c : ascii) : bool :=
  let z := byte_of_ascii c in
  ((9 <=? z) && (z <=? 13)) || ((28 <=? z) && (z <=? 32)) || (z =? 133) || (z =? 160).

Fixpoint drop_space (cs : list ascii) : list ascii :=
  match cs with c :: r => if is_space c then drop_space r else cs | [] => [] end.

Definition strip (cs : list ascii) : list ascii := rev (drop_space (rev (drop_space cs))).

Fixpoint dec_digits (cs : list ascii) (acc nd : Z) : option (Z * Z) :=
  match cs with
  | [] => Some (acc, nd)
  | c :: r =>
      if is_digit c then dec_digits r (acc * 10 + (byte_of_ascii c - 48)) (nd + 1)
      else if Ascii.eqb c "_"%char then
        match r with
        | d :: r' => if is_digit d then dec_digits r' (acc * 10 + (byte_of_ascii d - 48)) (nd + 1)
                     else None
        | [] => None
        end
      else None
  end.

Definition int_of_str (s : string) : result Z :=
  let cs := strip (list_of_string s) in
  let '(neg, cs1) :=
    match cs with
    | c :: r => if Ascii.eqb c "-"%char then (true, r)
                else if Ascii.eqb c "+"%char then (false, r) else (false, cs)
    | [] => (false, cs)
    end in
  match cs1 with
  | d :: _ =>
      if is_digit d then
        match dec_digits cs1 0 0 with
        | Some (n, nd) => if 4300 <? nd then raise ValueError else ret (if neg then - n else n)
        | None => raise ValueError
        end
      else raise ValueError
  | [] => raise ValueError
  end.

(** [int(v)] for a value [json.loads] returns. *)
Definition py_int (v : jvalue) : result Z :=
  match v with
  | JInt z => ret z
  | JBool b => ret (if b then 1 else 0)
  | JStr s => int_of_str s
  | JNull | JList _ | JObj _ => raise TypeError
  end.



(** [token.split(".", 1)] unpacked into two names ([None]: a
    [ValueError] on unpacking). *)
Fixpoint split_dot (s : string) : option (string * string) :=
  match s with
  | EmptyString => None
  | String c s' =>
      if Ascii.eqb c "."%char then Some (EmptyString, s')
      else match split_dot s' with
           | Some (a, b) => Some (String c a, b)
           | None => None
           end
  end.

Definition bytes_eqb (a b : bytes) : bool :=
  if list_eq_dec Z.eq_dec a b then true else false.

(** [verify_opt_out_token(token, secret)]; [now] is the reading of
    [int(time.time())]. *)
Definition verify_opt_out_token (token : option string) (secret : bytes) (now : Z)
    : result (bool * string) :=
  match token with
  | None => ret (false, "missing opt_out_token"%string)
  | Some EmptyString => ret (false, "missing opt_out_token"%string)
  | Some t =>
    let decoded :=
      match split_dot t with
      | None => raise ValueError
      | Some (enc_payload, enc_sig) =>
          payload <- B64.b64url_decode enc_payload ;;
          sig <- B64.b64url_decode enc_sig ;;
          ret (payload, sig)
      end in
    match decoded with
    | inl _ => ret (false, "malformed token"%string)
    | inr (payload, sig) =>
      let expected := Sha256.hmac secret payload in
      if negb (bytes_eqb sig expected) then ret (false, "invalid signature"%string)
      else
        match loads payload with
        | inl _ => ret (false, "invalid JSON payload"%string)
        | inr parsed =>
          exp <- (match parsed with
                  | JObj kvs => py_int (match dict_get "exp" kvs with
                                        | Some v => v
                                        | None => JInt 0
                                        end)
                  | _ => raise AttributeError
                  end) ;;
          if exp <? now then ret (false, "expired token"%string)
          else ret (true, "ok"%string)
        end
    end
  end.

End Policy.

(* ================================================================== *)
(** * Properties *)

(** ** Test vectors of the hash primitives (FIPS 180-2, RFC 4231) *)

Example sha256_abc :
  Sha256.hexdigest (encode "abc") =
  "ba7816bf8f01cfea414140de5dae2223b00361a396177a9cb410ff61f20015ad"%string.
Proof. vm_compute. reflexivity. Qed.

Example sha256_empty :
  Sha256.hexdigest [] =
  "e3b0c44298fc1c149afbf4c8996fb92427ae41e4649b934ca495991b7852b855"%string.
Proof. vm_compute. reflexivity. Qed.

Example hmac_rfc4231_2 :
  hex (Sha256.hmac (encode "Jefe") (encode "what do ya want for nothing?")) =
  "5bdcc146bf60754e6a042426089575c75a003f089d2739839dec58b964ec3843"%string.
Proof. vm_compute. reflexivity. Qed.


(* ------------------------------------------------------------------ *)
(** ** Float comparisons *)

Module FloatFacts.

Lemma SFcompare_swap (a b : spec_float) :
  SFcompare b a = option_map CompOpp (SFcompare a b).
Proof.
  destruct a as [sa|sa| |sa ma ea], b as [sb|sb| |sb mb eb];
    try destruct sa; try destruct sb; simpl; auto;
    pose proof (Pos.compare_cont_antisym ma mb Eq) as Hm; simpl in Hm;
    rewrite (Z.compare_antisym ea eb), <- Hm;
    destruct (Z.compare ea eb), (Pos.compare_cont Eq ma mb); reflexivity.
Qed.

(** Python's [a >= b] on floats is [b <= a]. *)
Lemma f_ge_leb (a b : spec_float) : Detector.f_ge a b = SFleb b a.
Proof.
  unfold Detector.f_ge, SFleb. rewrite (SFcompare_swap b a).
  destruct (SFcompare b a) as [[]|]; reflexivity.
Qed.

End FloatFacts.

(* ------------------------------------------------------------------ *)
(** ** Classification ([detector.py]) *)

Module DetectorProps.
Import Detector Statistical.

Definition four : spec_float := F64.lit 4 0.
Definition two_and_half : spec_float := F64.lit 5 (-1).

Lemma default_thresholds :
  z_threshold_verified default_statistical = four /\
  z_threshold_likely default_statistical = two_and_half /\
  four = S754_finite false 4503599627370496 (-50) /\
  two_and_half = S754_finite false 5629499534213120 (-51).
Proof. split. reflexivity. split. reflexivity. split. vm_compute. reflexivity. vm_compute. reflexivity. Qed.
Lemma lt_two_and_half_lt_four (z : spec_float) :
  SFltb z two_and_half = true -> SFleb four z = false.
Proof.
  destruct default_thresholds as (_ & _ & -> & ->).
  unfold SFltb, SFleb.
  destruct z as [s|s| |s m e]; try destruct s;
    cbv beta iota delta [SFcompare]; try discriminate; try reflexivity.
  destruct (Z.compare_spec e (-51)); try discriminate; intros _;
    replace (Z.compare (-50) e) with Gt by (symmetry; apply Z.compare_gt_iff; lia);
    reflexivity.
Qed.
(** C3: with the default configuration, a CRC-valid payload candidate
    gives ["verified"] whatever the statistical score; otherwise the best
    z-score gives ["verified"] when [z >= 4.0], ["likely"] when
    [2.5 <= z < 4.0] and ["none"] when [z < 2.5]; with neither a payload
    nor a score the status is ["none"]. *)
Theorem verify_status_classification {Meta : Type} (unpack_payload : Z -> Meta * bool)
    (decoded : list Z) (stat_score : option StatisticalScore) :
  let status := verify_status unpack_payload default_statistical decoded stat_score in
  (first_valid unpack_payload decoded <> None -> status = "verified"%string) /\
  (first_valid unpack_payload decoded = None -> stat_score = None ->
     status = "none"%string) /\
  (forall s, first_valid unpack_payload decoded = None -> stat_score = Some s ->
     (SFleb (F64.lit 4 0) (z_score s) = true -> status = "verified"%string) /\
     (SFleb (F64.lit 5 (-1)) (z_score s) = true -> SFltb (z_score s) (F64.lit 4 0) = true ->
        status = "likely"%string) /\
     (SFltb (z_score s) (F64.lit 5 (-1)) = true -> status = "none"%string)).
Proof.
  cbv zeta. unfold verify_status.
  destruct default_thresholds as (Hv & Hl & _).
  rewrite Hv, Hl. fold four two_and_half.
  split; [|split].
  - destruct (first_valid unpack_payload decoded); [reflexivity | congruence].
  - intros -> ->. reflexivity.
  - intros s -> ->. rewrite !FloatFacts.f_ge_leb.
    split; [|split].
    + intros ->. reflexivity.
    + intros H1 H2. rewrite H1.
      unfold SFltb, SFleb in *. destruct (SFcompare four (z_score s)) as [[]|] eqn:E;
        try reflexivity;
        rewrite FloatFacts.SFcompare_swap, E in H2; discriminate.
    + intros H. rewrite (lt_two_and_half_lt_four _ H).
      unfold SFltb, SFleb in *.
      rewrite FloatFacts.SFcompare_swap.
      destruct (SFcompare (z_score s) two_and_half) as [[]|]; try discriminate.
      reflexivity.
Qed.

Lemma verify_status_classification_witness :
  verify_status (fun _ : Z => (tt, false)) default_statistical [7]
    (Some (mkScore 10 8 (F64.lit 5 0) (F64.lit 3 0) F64.half)) = "likely"%string.
Proof.
  refine (proj1 (proj2 (proj2 (proj2 (verify_status_classification
            (fun _ : Z => (tt, false)) [7]
            (Some (mkScore 10 8 (F64.lit 5 0) (F64.lit 3 0) F64.half))))
            (mkScore 10 8 (F64.lit 5 0) (F64.lit 3 0) F64.half) eq_refl eq_refl)) _ _);
    vm_compute; reflexivity.
Defined.

End DetectorProps.

(* ------------------------------------------------------------------ *)
(** ** Scorers on short inputs ([statistical.py]) *)

Module StatisticalProps.
Import Statistical.

(** C9: on a token list of length at most [context_width], the dense
    scorer and the sparse scorer both return the sentinel
    [StatisticalScore(0, 0, 0.0, 0.0, 1.0)], whose one-sided p-value is
    exactly 1.0, for every [derived_key]: no seed is derived. *)
Theorem short_input_sentinel (erfc : spec_float -> spec_float) (token_ids : list Z)
    (derived_key : bytes) (vocab_size context_width : Z) (greenlist_ratio : spec_float)
    (max_bias_tokens : Z) :
  Z.of_nat (List.length token_ids) <= context_width ->
  score erfc context_width greenlist_ratio token_ids derived_key = ret empty_score /\
  score_sparse_watermark erfc token_ids derived_key vocab_size context_width
    greenlist_ratio max_bias_tokens = ret empty_score /\
  empty_score = mkScore 0 0 (S754_zero false) (S754_zero false)
                  (S754_finite false 4503599627370496 (-52)).
Proof.
  intros H. unfold score, score_sparse_watermark.
  replace (Z.of_nat (List.length token_ids) <=? context_width) with true
    by (symmetry; apply Z.leb_le; exact H).
  split; [reflexivity | split; [reflexivity | vm_compute; reflexivity]].
Qed.

Lemma short_input_sentinel_witness :
  score (fun x => x) 2 F64.half [5; 6] [1; 2; 3] = ret empty_score /\
  score_sparse_watermark (fun x => x) [5; 6] [1; 2; 3] 10 2 F64.half 4 = ret empty_score /\
  empty_score = mkScore 0 0 (S754_zero false) (S754_zero false)
                  (S754_finite false 4503599627370496 (-52)).
Proof.
  apply (short_input_sentinel (fun x => x) [5; 6] [1; 2; 3] 10 2 F64.half 4).
  simpl. lia.
Defined.

End StatisticalProps.

(* ------------------------------------------------------------------ *)
(** ** Signer lookup ([auth.py]) *)

Module AuthProps.
Import Auth.

Definition revoked_address : string := "0x52908400098527886E0F7030069857D2E4169EE7".

(** A deactivated company ([active = 0]) registered under the address. *)
Definition revoked_row : company :=
  mkCompany 1 "Revoked Co" 100 revoked_address "04ab" 0 "2026-01-01 00:00:00".

(** C7 (the code accepts an inactive company): with a [companies] table
    holding only an inactive row whose address is the recovered signer,
    [verify_signature_by_address] returns that company's credential: the
    direct lookup filters on [active = 1] and finds nothing, and the
    fallback over [list_companies] does not look at [active]. *)
Theorem inactive_company_verified :
  active revoked_row = 0 /\
  get_company_by_address [revoked_row] revoked_address = None /\
  verify_signature_by_address (fun _ _ => ret revoked_address) [revoked_row]
    "9f86d081884c7d659a2feaa0c55ad015a3bf4f1b2b0b822cd15d6c15b0f00a08" "1b" =
    Some (mkSigner 100 "Revoked Co" revoked_address).
Proof. vm_compute. repeat split. Qed.

(** The same through the case-insensitive fallback: the recovered address
    in lower case. *)
Lemma inactive_company_verified_lowercase :
  verify_signature_by_address (fun _ _ => ret (lower revoked_address)) [revoked_row]
    "9f86d081884c7d659a2feaa0c55ad015a3bf4f1b2b0b822cd15d6c15b0f00a08" "1b" =
    Some (mkSigner 100 "Revoked Co" revoked_address).
Proof. vm_compute. reflexivity. Qed.

End AuthProps.

(* ------------------------------------------------------------------ *)
(** ** The stored chain ([chain.py]) *)

Module ChainProps.
Import Chain.

(** Two [anchor] calls with [metadata=None] ([payload_json = "{}"]); each
    carries the ISO timestamp Python reads and the [datetime('now')] value
    SQLite stores in the row. *)
Definition first_call : anchor_call :=
  mkCall "h1" 100 "s1" "{}" "2026-10-18T00:00:00.123456+00:00" "2026-10-18 00:00:00".
Definition second_call : anchor_call :=
  mkCall "h2" 100 "s2" "{}" "2026-10-18T00:00:01.654321+00:00" "2026-10-18 00:00:01".

Definition anchored : store := run empty_store [first_call; second_call].

(** C1 (the stored rows do not satisfy the hash equation): after two
    [anchor] calls from an empty store the linkage holds and
    [validate_chain()] returns [(true, ...)], each [tx_hash] is SHA-256 of
    [prev_hash || data_hash || decimal(issuer_id) || ts] for the ISO
    timestamp [ts] that Python read, but the [timestamp] column holds
    SQLite's [datetime('now')] text, so no stored block's [tx_hash] equals
    SHA-256 of its own [prev_hash || data_hash || decimal(issuer_id) ||
    timestamp]. *)
Theorem stored_timestamp_not_hashed :
  validate_chain anchored = (true, "valid chain with 2 blocks"%string) /\
  map prev_hash (blocks anchored) =
    [GENESIS_PREV_HASH; Sha256.hexdigest (encode (GENESIS_PREV_HASH ++ "h1" ++ "100"
                                                 ++ c_ts first_call))] /\
  map tx_hash (blocks anchored) =
    map (fun '(b, c) => Sha256.hexdigest (encode (prev_hash b ++ data_hash b
                                                   ++ str_of_int (issuer_id b) ++ c_ts c)))
        (combine (blocks anchored) [first_call; second_call]) /\
  map timestamp (blocks anchored) = [c_db_now first_call; c_db_now second_call] /\
  existsb row_hash_ok (blocks anchored) = false.
Proof. vm_compute. repeat split. Qed.

End ChainProps.

(* ------------------------------------------------------------------ *)
(** ** Opt-out tokens ([policy.py]) *)

Module PolicyProps.
Import Json Policy.

(** Tokens signed with [secret = b"secret"] over a payload that is valid
    JSON but not a dict with an integer [exp]. *)
Definition list_payload_token : string :=
  "W10.UzZKB_zFY-cS9Cz8neHijh4tOfI2zuQw8RIgPlV66j8".
Definition null_exp_token : string :=
  "eyJleHAiOm51bGx9.PnfoiG6lyukIaiypgG8pchPzbXgD5p7gSODw1BcOvSo".
Definition text_exp_token : string :=
  "eyJleHAiOiJzb29uIn0.UxjLR0Q8QLF0r9IvN77hOtaWYC-FNxpqN36aMdYRvGM".

(** C6 (the code raises): the tokens above carry a valid signature and the
    payloads [[]], [{"exp":null}] and [{"exp":"soon"}]; the call
    [int(parsed.get("exp", 0))], which no [try] covers, raises
    [AttributeError], [TypeError] and [ValueError] out of
    [verify_opt_out_token] at every time [now]. *)
Theorem verify_raises_on_signed_payloads (now : Z) :
  B64.b64url_decode "W10" = ret (encode "[]") /\
  verify_opt_out_token (Some list_payload_token) (encode "secret") now = raise AttributeError /\
  verify_opt_out_token (Some null_exp_token) (encode "secret") now = raise TypeError /\
  verify_opt_out_token (Some text_exp_token) (encode "secret") now = raise ValueError.
Proof. vm_compute. repeat split. Qed.



End PolicyProps.

(* ------------------------------------------------------------------ *)
(** ** Exact rounding in [SpecFloat] *)

Module RoundFacts.

Lemma iter_pos_nat {A : Type} (f : A -> A) (p : positive) (x : A) :
  iter_pos f p x = Nat.iter (Pos.to_nat p) f x.
Proof.
  revert x; induction p as [p IH|p IH|]; intros x; cbn [iter_pos].
  - rewrite IH, IH, Pos2Nat.inj_xI, <- Nat.iter_succ_r, <- Nat.iter_add.
    f_equal. lia.
  - rewrite IH, IH, Pos2Nat.inj_xO, <- Nat.iter_add. f_equal. lia.
  - reflexivity.
Qed.

Lemma shr_1_even (q : Z) :
  0 <= q -> q mod 2 = 0 ->
  shr_1 (Build_shr_record q false false) = Build_shr_record (q / 2) false false.
Proof.
  intros Hq Hm. destruct q as [|p|p]; [reflexivity| |lia].
  destruct p as [p|p|]; simpl in Hm.
  - exfalso. rewrite Pos2Z.inj_xI in Hm. rewrite Z.add_comm, Z.mul_comm, Z.mod_add in Hm by lia.
    discriminate.
  - simpl. f_equal. rewrite Pos2Z.inj_xO, Z.mul_comm, Z.div_mul by lia. reflexivity.
  - discriminate.
Qed.

Lemma shr_1_iter_exact (k : nat) (m : Z) :
  0 <= m -> m mod 2 ^ Z.of_nat k = 0 ->
  Nat.iter k shr_1 (Build_shr_record m false false) =
  Build_shr_record (m / 2 ^ Z.of_nat k) false false.
Proof.
  revert m; induction k as [|k IH]; intros m Hm Hmod.
  - simpl. rewrite Z.div_1_r. reflexivity.
  - rewrite Nat2Z.inj_succ, Z.pow_succ_r in Hmod by lia.
    assert (Hk : 0 < 2 ^ Z.of_nat k) by (apply Z.pow_pos_nonneg; lia).
    apply Z.mod_divide in Hmod; [|lia]. destruct Hmod as [t Ht].
    simpl Nat.iter. rewrite IH by (auto; rewrite Ht, Z.mul_assoc; apply Z.mod_mul; lia).
    assert (Hq : m / 2 ^ Z.of_nat k = t * 2)
      by (rewrite Ht, Z.mul_assoc, Z.div_mul; lia).
    rewrite Hq, shr_1_even by (try (rewrite Z.mod_mul; lia); nia).
    f_equal. rewrite Z.div_mul by lia. rewrite Nat2Z.inj_succ, Z.pow_succ_r by lia.
    rewrite Ht, Z.div_mul by lia. reflexivity.
Qed.

Lemma shr_exact (e n m : Z) :
  0 <= n -> 0 <= m -> m mod 2 ^ n = 0 ->
  shr (Build_shr_record m false false) e n = (Build_shr_record (m / 2 ^ n) false false, e + n).
Proof.
  intros Hn Hm Hmod. destruct n as [|p|p]; [| |lia].
  - simpl. rewrite Z.div_1_r, Z.add_0_r. reflexivity.
  - unfold shr. rewrite iter_pos_nat, shr_1_iter_exact; rewrite ?positive_nat_Z; auto.
Qed.

Lemma digits2_pos_size (p : positive) : digits2_pos p = Pos.size p.
Proof. induction p; simpl; congruence. Qed.

Lemma Zdigits2_log2 (p : positive) : Zdigits2 (Zpos p) = Z.log2 (Zpos p) + 1.
Proof.
  unfold Zdigits2. rewrite digits2_pos_size.
  destruct p; simpl; try reflexivity; rewrite Pos2Z.inj_succ; reflexivity.
Qed.

Lemma canonical_log2 (p : positive) (e : Z) :
  bounded F64.prec F64.emax p e = true ->
  Z.max (Z.log2 (Zpos p) + 1 + e - 53) (-1074) = e /\ e <= 971.
Proof.
  unfold bounded, canonical_mantissa, fexp, emin, F64.prec, F64.emax.
  rewrite Bool.andb_true_iff, Z.eqb_eq, Z.leb_le.
  change (Zpos (digits2_pos p)) with (Zdigits2 (Zpos p)). rewrite Zdigits2_log2.
  intros [H1 H2]. split; [rewrite <- H1 at 2; f_equal; lia | lia].
Qed.

(** [binary_round_aux] returns a value that is representable as it is. *)
Lemma round_aux_exact (s : bool) (mx p : positive) (ex e' : Z) :
  ex <= e' -> Zpos mx = Zpos p * 2 ^ (e' - ex) ->
  bounded F64.prec F64.emax p e' = true ->
  binary_round_aux F64.prec F64.emax s (Zpos mx) ex loc_Exact = S754_finite s p e'.
Proof.
  intros Hle Hmx Hb.
  destruct (canonical_log2 p e' Hb) as [Hc Hmax].
  assert (Hl : Z.log2 (Zpos mx) = Z.log2 (Zpos p) + (e' - ex))
    by (rewrite Hmx, Z.log2_mul_pow2; lia).
  unfold binary_round_aux, shr_fexp, fexp, emin, F64.prec, F64.emax.
  change (shr_record_of_loc (Zpos mx) loc_Exact) with (Build_shr_record (Zpos mx) false false).
  rewrite Zdigits2_log2, Hl.
  replace (Z.max (Z.log2 (Zpos p) + (e' - ex) + 1 + ex - 53) (3 - 1024 - 53) - ex)
    with (e' - ex) by lia.
  rewrite shr_exact by (try lia; rewrite Hmx; apply Z.mod_mul;
                        apply Z.pow_nonzero; lia).
  replace (Zpos mx / 2 ^ (e' - ex)) with (Zpos p)
    by (rewrite Hmx, Z.div_mul; [reflexivity | apply Z.pow_nonzero; lia]).
  replace (ex + (e' - ex)) with e' by lia.
  cbn [shr_m loc_of_shr_record round_nearest_even shr_record_of_loc].
  rewrite Zdigits2_log2.
  replace (Z.max (Z.log2 (Zpos p) + 1 + e' - 53) (3 - 1024 - 53) - e') with 0 by lia.
  cbn [shr shr_m]. replace (e' <=? 1024 - 53) with true by (symmetry; apply Z.leb_le; lia).
  reflexivity.
Qed.

Lemma bounded_of_log2 (p : positive) (e : Z) :
  Z.max (Z.log2 (Zpos p) + 1 + e - 53) (-1074) = e -> e <= 971 ->
  bounded F64.prec F64.emax p e = true.
Proof.
  intros H1 H2. unfold bounded, canonical_mantissa, fexp, emin, F64.prec, F64.emax.
  change (Zpos (digits2_pos p)) with (Zdigits2 (Zpos p)). rewrite Zdigits2_log2.
  rewrite Bool.andb_true_iff, Z.eqb_eq, Z.leb_le. split; lia.
Qed.

End RoundFacts.

(* ------------------------------------------------------------------ *)
(** ** The greenlist predicate ([statistical.py]) *)

Module GreenProps.
Import Statistical.

(** [float(_MASK63)] is [2^63]. *)
Lemma of_int_MASK63 : F64.of_int MASK63 = ret (S754_finite false 4503599627370496 11).
Proof. vm_compute. reflexivity. Qed.

(** Multiplying a binary64 number by [2^63] is exact below overflow. *)
Lemma mul_2_63_exact (s : bool) (m : positive) (e : Z) :
  bounded F64.prec F64.emax m e = true -> e <= 900 ->
  exists p e', F64.mul (S754_finite false 4503599627370496 11) (S754_finite s m e)
                 = S754_finite s p e' /\
               Z.shiftl (Zpos p) e' = Z.shiftl (Zpos m) (e + 63).
Proof.
  intros Hb He.
  destruct (RoundFacts.canonical_log2 m e Hb) as [Hc _].
  pose proof (Z.log2_nonneg (Zpos m)) as HL0.
  set (L := Z.log2 (Zpos m)) in *.
  assert (HL : L <= 52) by lia.
  assert (Hpos : 0 < Zpos m * 2 ^ (52 - L))
    by (apply Z.mul_pos_pos; [lia | apply Z.pow_pos_nonneg; lia]).
  exists (Z.to_pos (Zpos m * 2 ^ (52 - L))), (e + 11 + L).
  assert (Hp : Zpos (Z.to_pos (Zpos m * 2 ^ (52 - L))) = Zpos m * 2 ^ (52 - L))
    by (apply Z2Pos.id; exact Hpos).
  split.
  - unfold F64.mul, SFmul.
    apply RoundFacts.round_aux_exact; [lia | |].
    + rewrite Pos2Z.inj_mul, Hp, <- Z.mul_assoc, <- Z.pow_add_r by lia.
      replace (52 - L + (e + 11 + L - (11 + e))) with 52 by lia.
      rewrite Z.mul_comm. reflexivity.
    + apply RoundFacts.bounded_of_log2; [|lia].
      rewrite Hp, Z.log2_mul_pow2 by lia. fold L. lia.
  - rewrite Hp, <- Z.shiftl_mul_pow2, Z.shiftl_shiftl by lia. f_equal. lia.
Qed.

(** [mix63] reduces modulo [2^63], as [x & (2^63 - 1)] does for every
    [int] (negative ones included). *)
Lemma mix63_mod (x : Z) : mix63 x = (A * (x mod 2 ^ 63) + B) mod 2 ^ 63.
Proof.
  unfold mix63. change MASK63 with (Z.ones 63).
  rewrite !Z.land_ones by lia. reflexivity.
Qed.

(** The claim's threshold: the exact floor of [ratio * (2^63 - 1)], for a
    ratio given as the rational [num / den]. *)
Definition floor_threshold (num den : Z) : Z := num * MASK63 / den.

(** The id whose [mix63] value (with seed 0) is [2^61 - 1]. *)
Definition boundary_id : Z := 3467699448759769530.

(** C2, counterexample: for [ratio = 0.25] (exactly [1/4]), seed 0 and
    the id [boundary_id], [mix63] is [2^61 - 1] = floor(0.25 * (2^63 - 1)),
    so the claimed predicate is false, but [token_is_green] returns true:
    its threshold is [int(0.25 * float(2^63 - 1)) = int(0.25 * 2^63) = 2^61]. *)
Lemma token_is_green_floor_counterexample :
  F64.lit 1 (-2) = S754_finite false 4503599627370496 (-54) /\
  mix63 (Z.lxor boundary_id (Z.land 0 MASK63)) = 2 ^ 61 - 1 /\
  floor_threshold 1 4 = 2 ^ 61 - 1 /\
  (mix63 (Z.lxor boundary_id (Z.land 0 MASK63)) <? floor_threshold 1 4) = false /\
  threshold (F64.lit 1 (-2)) = ret (2 ^ 61) /\
  token_is_green boundary_id 0 (F64.lit 1 (-2)) = ret true.
Proof. vm_compute. repeat split. Qed.

(** C2, amended: for every token id, seed, and finite binary64 ratio
    [(-1)^s * m * 2^e] with [e <= 900], [token_is_green] is true exactly when
    [mix63(id XOR (seed & (2^63-1)))], which is [(A * (x mod 2^63) + B) mod
    2^63], is below [trunc(ratio * 2^63)]: the product [ratio * float(2^63-1)]
    is [ratio * 2^63], computed exactly, and [int] truncates it.  A zero
    ratio gives threshold 0, so no id is green. *)
Theorem token_is_green_trunc (token_id seed : Z) (s : bool) (m : positive) (e : Z) :
  bounded F64.prec F64.emax m e = true -> e <= 900 ->
  token_is_green token_id seed (S754_finite s m e) =
    ret (mix63 (Z.lxor token_id (Z.land seed MASK63)) <?
         (if s then - Z.shiftl (Zpos m) (e + 63) else Z.shiftl (Zpos m) (e + 63))) /\
  (forall z, token_is_green token_id seed (S754_zero z) = ret false) /\
  (forall x, mix63 x = (A * (x mod 2 ^ 63) + B) mod 2 ^ 63).
Proof.
  intros Hb He. split; [|split].
  - unfold token_is_green, threshold, F64.mul_int. rewrite of_int_MASK63.
    destruct (mul_2_63_exact s m e Hb He) as (p & e' & Hm & Hs).
    cbn [bind ret]. rewrite Hm. cbn [F64.to_int bind ret]. rewrite Hs. reflexivity.
  - intros z. unfold token_is_green, threshold, F64.mul_int. rewrite of_int_MASK63.
    cbn [bind ret]. unfold F64.mul. simpl SFmul. cbn [F64.to_int bind ret]. f_equal.
    apply Z.ltb_ge. unfold mix63. apply Z.land_nonneg. right. unfold MASK63. lia.
  - exact mix63_mod.
Qed.

Lemma token_is_green_trunc_witness :
  token_is_green boundary_id 0 (S754_finite false 4503599627370496 (-54)) = ret true /\
  (forall z, token_is_green boundary_id 0 (S754_zero z) = ret false) /\
  (forall x, mix63 x = (A * (x mod 2 ^ 63) + B) mod 2 ^ 63).
Proof.
  destruct (token_is_green_trunc boundary_id 0 false 4503599627370496 (-54))
    as (H1 & H2 & H3); [vm_compute; reflexivity | lia |].
  split; [|split; assumption].
  rewrite H1. vm_compute. reflexivity.
Defined.

End GreenProps.

(* ------------------------------------------------------------------ *)
(** ** Sparse greenlist ([select_sparse_green_ids]) *)

Module SparseProps.
Import Statistical.

(** The list size the spec describes: [clip(floor(V * r), 1, min(m, V))]
    with the exact product of [V] and the value of the float [r]. *)
Definition spec_k (V : Z) (r : spec_float) (M : Z) : option Z :=
  let clip x := Z.max 1 (Z.min x (Z.min M V)) in
  match r with
  | S754_zero _ => Some (clip 0)
  | S754_finite s m e => Some (clip (Z.shiftl ((if s then - V else V) * Zpos m) e))
  | _ => None
  end.

(** [0.7], the binary64 number nearest to [7/10]. *)
Definition r07 : spec_float := F64.div (F64.lit 7 0) (F64.lit 10 0).

Section SortFacts.
Variable key : Z -> Z.
Let R (a b : Z) : Prop := key a <= key b.

Lemma insert_perm (x : Z) (l : list Z) : Permutation (Statistical.insert key x l) (x :: l).
Proof.
  induction l as [|y l IH]; simpl; [reflexivity|].
  destruct (key x <=? key y); [reflexivity|].
  rewrite IH. apply perm_swap.
Qed.

Lemma sort_perm (l : list Z) : Permutation (Statistical.sort key l) l.
Proof.
  induction l as [|x l IH]; simpl; [reflexivity|].
  rewrite insert_perm. apply perm_skip. exact IH.
Qed.

Lemma insert_sorted (x : Z) (l : list Z) : Sorted R l -> Sorted R (Statistical.insert key x l).
Proof.
  induction 1 as [|y l Hl IH Hhd]; simpl.
  - repeat constructor.
  - case_eq (key x <=? key y); intros Hxy.
    + constructor; [constructor; assumption|]. constructor. apply Z.leb_le. exact Hxy.
    + apply Z.leb_gt in Hxy. constructor; [exact IH|].
      destruct l as [|z l]; simpl.
      * constructor. unfold R. lia.
      * inversion Hhd; subst. destruct (key x <=? key z); constructor; unfold R in *; lia.
Qed.

Lemma sort_sorted (l : list Z) : Sorted R (Statistical.sort key l).
Proof.
  induction l as [|x l IH]; simpl; [constructor|]. apply insert_sorted. exact IH.
Qed.

Lemma sorted_app_l (l1 l2 : list Z) : Sorted R (l1 ++ l2) -> Sorted R l1.
Proof.
  induction l1 as [|a l1 IH]; simpl; intros H; [constructor|].
  apply Sorted_inv in H as [H1 H2]. constructor; [apply IH; exact H1|].
  destruct l1 as [|b l1]; [constructor|]. inversion H2; subst. constructor. assumption.
Qed.

Lemma strongly_sorted_app (l1 l2 : list Z) (i j : Z) :
  StronglySorted R (l1 ++ l2) -> In i l1 -> In j l2 -> R i j.
Proof.
  induction l1 as [|a l1 IH]; simpl; intros H Hi Hj; [contradiction|].
  apply StronglySorted_inv in H as [H1 H2]. destruct Hi as [<-|Hi].
  - rewrite Forall_forall in H2. apply H2, in_or_app. right. exact Hj.
  - apply IH; assumption.
Qed.

End SortFacts.

Lemma sort_ext (k1 k2 : Z -> Z) (l : list Z) :
  (forall x, k1 x = k2 x) -> sort k1 l = sort k2 l.
Proof.
  intros Hk. induction l as [|x l IH]; simpl; [reflexivity|]. rewrite IH. clear IH.
  induction (sort k2 l) as [|y l' IH']; simpl; [reflexivity|].
  rewrite !Hk. destruct (k2 x <=? k2 y); [reflexivity|]. rewrite IH'. reflexivity.
Qed.

Lemma range_in (V i : Z) : 0 <= V -> In i (range 0 V) <-> 0 <= i < V.
Proof.
  intros HV. unfold range. rewrite in_map_iff. split.
  - intros (n & <- & Hn). apply in_seq in Hn. lia.
  - intros Hi. exists (Z.to_nat i). split; [lia|]. apply in_seq. lia.
Qed.

Lemma range_nodup (V : Z) : NoDup (range 0 V).
Proof.
  unfold range. apply NoDup_map_NoDup_ForallPairs; [intros a b _ _; lia|]. apply seq_NoDup.
Qed.

Lemma range_length (V : Z) : List.length (range 0 V) = Z.to_nat V.
Proof. unfold range. rewrite length_map, length_seq. lia. Qed.

(** [_mix63] masks its argument, so masking the seed first changes nothing. *)
Lemma mix63_lxor_mask (t s : Z) :
  mix63 (Z.lxor t (Z.land s MASK63)) = mix63 (Z.lxor t s).
Proof.
  unfold mix63. f_equal. f_equal. f_equal. apply Z.bits_inj'. intros n Hn.
  rewrite !Z.land_spec, !Z.lxor_spec, Z.land_spec.
  destruct (Z.testbit t n), (Z.testbit s n), (Z.testbit MASK63 n); reflexivity.
Qed.

(** C4 (counterexample): for [V = 10], [r = 0.7] and [m = 10] the size
    the spec gives is [clip(floor(10 * 0.7), 1, 10) = 6], the float [0.7]
    being slightly below [7/10]; the code computes [int(10 * 0.7)] in
    floating point, where the product rounds to [7.0], and returns seven
    ids. *)
Lemma select_sparse_green_ids_floor_counterexample :
  r07 = S754_finite false 6305039478318694 (-53) /\
  spec_k 10 r07 10 = Some 6 /\
  sparse_k 10 r07 10 = ret 7 /\
  select_sparse_green_ids 10 12345 r07 10 = ret [9; 4; 3; 8; 7; 2; 1].
Proof.
  split; [vm_compute; reflexivity|].
  split; [vm_compute; reflexivity|].
  split; vm_compute; reflexivity.
Qed.

(** C4 (amended): for [vocab_size > 0], when [int(float(vocab_size) * r)]
    evaluates to [t], [select_sparse_green_ids] returns a list of
    [k = max(1, min(t, max_bias_tokens, vocab_size))] distinct ids of
    [[0, vocab_size)], in ascending order of [mix63(id XOR seed)], and no
    id of [[0, vocab_size)] left out has a smaller [mix63] value than an
    id in the list. *)
Theorem select_sparse_green_ids_smallest (V seed : Z) (r : spec_float) (M t : Z) :
  0 < V ->
  (p <- F64.mul_int V r ;; F64.to_int p) = ret t ->
  exists ids,
    select_sparse_green_ids V seed r M = ret ids /\
    Z.of_nat (List.length ids) = Z.max 1 (Z.min t (Z.min M V)) /\
    NoDup ids /\
    (forall i, In i ids -> 0 <= i < V) /\
    Sorted (fun a b => mix63 (Z.lxor a seed) <= mix63 (Z.lxor b seed)) ids /\
    (forall i j, In i ids -> 0 <= j < V -> ~ In j ids ->
       mix63 (Z.lxor i seed) <= mix63 (Z.lxor j seed)).
Proof.
  intros HV Ht.
  set (key := fun a => mix63 (Z.lxor a seed)).
  set (k := Z.max 1 (Z.min t (Z.min M V))).
  set (s := Statistical.sort key (range 0 V)).
  exists (firstn (Z.to_nat k) s).
  assert (Hsel : select_sparse_green_ids V seed r M = ret (firstn (Z.to_nat k) s)).
  { unfold select_sparse_green_ids, sparse_k.
    replace (V <=? 0) with false by (symmetry; apply Z.leb_gt; lia).
    destruct (F64.mul_int V r) as [e|p]; cbn [bind ret] in Ht |- *; [discriminate|].
    rewrite Ht. cbn [bind ret]. unfold nsmallest, s, k. f_equal. f_equal.
    apply sort_ext. intros x. apply mix63_lxor_mask. }
  assert (Hperm : Permutation s (range 0 V)) by apply sort_perm.
  assert (Hsorted : StronglySorted (fun a b => key a <= key b) s).
  { apply Sorted_StronglySorted; [intros x y z H1 H2; cbv beta in *; lia|].
    apply sort_sorted. }
  assert (Hnd : NoDup s)
    by (apply (Permutation_NoDup (Permutation_sym Hperm)), range_nodup).
  assert (Hlen : List.length s = Z.to_nat V)
    by (rewrite (Permutation_length Hperm); apply range_length).
  assert (Hsplit := firstn_skipn (Z.to_nat k) s).
  split; [exact Hsel|]. split; [|split; [|split; [|split]]].
  - rewrite length_firstn, Hlen. unfold k. lia.
  - rewrite <- Hsplit in Hnd. eapply NoDup_app_remove_r. exact Hnd.
  - intros i Hi. apply (range_in V i); [lia|]. apply (Permutation_in _ Hperm).
    rewrite <- Hsplit. apply in_or_app. left. exact Hi.
  - apply (sorted_app_l key _ (skipn (Z.to_nat k) s)). rewrite Hsplit. apply sort_sorted.
  - intros i j Hi Hj Hnj.
    assert (Hjs : In j s)
      by (apply (Permutation_in _ (Permutation_sym Hperm)); apply range_in; lia).
    rewrite <- Hsplit in Hjs, Hsorted. apply in_app_or in Hjs as [Hjs|Hjs]; [contradiction|].
    exact (strongly_sorted_app key _ _ i j Hsorted Hi Hjs).
Qed.

Lemma select_sparse_green_ids_smallest_witness :
  exists ids,
    select_sparse_green_ids 10 12345 r07 10 = ret ids /\
    Z.of_nat (List.length ids) = Z.max 1 (Z.min 7 (Z.min 10 10)) /\
    NoDup ids /\
    (forall i, In i ids -> 0 <= i < 10) /\
    Sorted (fun a b => mix63 (Z.lxor a 12345) <= mix63 (Z.lxor b 12345)) ids /\
    (forall i j, In i ids -> 0 <= j < 10 -> ~ In j ids ->
       mix63 (Z.lxor i 12345) <= mix63 (Z.lxor j 12345)).
Proof.
  apply (select_sparse_green_ids_smallest 10 12345 r07 10 7); [lia | vm_compute; reflexivity].
Defined.

End SparseProps.

(* ------------------------------------------------------------------ *)
(** ** Round trip of [_b64url_encode] and [_b64url_decode] *)

Module B64Props.
Import B64.




Lemma list_string_list (l : list ascii) : list_of_string (string_of_list l) = l.
Proof. induction l as [|c l IH]; simpl; [reflexivity|]. rewrite IH. reflexivity. Qed.


Lemma string_of_list_length (l : list ascii) : String.length (string_of_list l) = List.length l.
Proof. induction l as [|c l IH]; simpl; congruence. Qed.

Lemma string_of_list_app (l1 l2 : list ascii) :
  (string_of_list l1 ++ string_of_list l2)%string = string_of_list (l1 ++ l2).
Proof. induction l1 as [|c l IH]; simpl; [reflexivity|]. rewrite IH. reflexivity. Qed.

Lemma eqs_repeat (n : nat) : eqs n = string_of_list (repeat "="%char n).
Proof. induction n as [|n IH]; simpl; [reflexivity|]. rewrite IH. reflexivity. Qed.

(** A finite check on [[0, n)] proves a statement on [[0, n)]. *)
Lemma forallb_range (P : Z -> bool) (n : nat) :
  forallb P (map Z.of_nat (seq 0 n)) = true -> forall v, 0 <= v < Z.of_nat n -> P v = true.
Proof.
  intros H v Hv. rewrite forallb_forall in H. apply H. apply in_map_iff.
  exists (Z.to_nat v). split; [lia|]. apply in_seq. lia.
Qed.

Definition bytes256 : list Z := map Z.of_nat (seq 0 256).

(** Induction on a byte string three bytes at a time, as the encoder
    goes. *)
Lemma bytes3_ind (P : bytes -> Prop) :
  P [] -> (forall x, P [x]) -> (forall x y, P [x; y]) ->
  (forall x y z r, P r -> P (x :: y :: z :: r)) -> forall b, P b.
Proof.
  intros H0 H1 H2 H3. fix IH 1. intros [|x [|y [|z r]]].
  - exact H0.
  - apply H1.
  - apply H2.
  - apply H3. apply IH.
Qed.

(** The characters of a sextet. *)
Definition sextet_ok (v : Z) : bool :=
  match dec_char (enc_char v) with Some w => w =? v | None => false end &&
  negb (Ascii.eqb (enc_char v) "="%char) && negb (Ascii.eqb (enc_char v) "."%char) &&
  (byte_of_ascii (enc_char v) <? 128).

Lemma sextet_ok_all : forallb sextet_ok (map Z.of_nat (seq 0 64)) = true.
Proof. vm_compute. reflexivity. Qed.

Lemma sextet_facts (v : Z) : 0 <= v < 64 ->
  dec_char (enc_char v) = Some v /\ Ascii.eqb (enc_char v) "="%char = false /\
  Ascii.eqb (enc_char v) "."%char = false /\ byte_of_ascii (enc_char v) < 128.
Proof.
  intros Hv. pose proof (forallb_range _ 64 sextet_ok_all v Hv) as H. unfold sextet_ok in H.
  destruct (dec_char (enc_char v)) as [w|]; [|discriminate].
  apply andb_prop in H as [H H4]. apply andb_prop in H as [H H3]. apply andb_prop in H as [H1 H2].
  apply Z.eqb_eq in H1. apply negb_true_iff in H2, H3. apply Z.ltb_lt in H4. subst w. auto.
Qed.

Definition in64 (v : Z) : bool := (0 <=? v) && (v <? 64).

(** The bit identities of one byte. *)
Definition byte1_ok (x : Z) : bool :=
  in64 (Z.shiftr x 2) && in64 (Z.land x 63) && in64 (Z.shiftl (Z.land x 3) 4) &&
  in64 (Z.shiftl (Z.land x 15) 2) &&
  (Z.lor (Z.shiftl (Z.shiftr x 6) 6) (Z.land x 63) =? x) &&
  (Z.lor (Z.shiftl (Z.shiftr x 2) 2) (Z.shiftr (Z.shiftl (Z.land x 3) 4) 4) =? x) &&
  (Z.lor (Z.shiftl (Z.shiftr x 4) 4) (Z.shiftr (Z.shiftl (Z.land x 15) 2) 2) =? x).

(** The bit identities of two consecutive bytes. *)
Definition byte2_ok (x y : Z) : bool :=
  let v2 := Z.lor (Z.shiftl (Z.land x 3) 4) (Z.shiftr y 4) in
  let v3 := Z.lor (Z.shiftl (Z.land x 15) 2) (Z.shiftr y 6) in
  in64 v2 && in64 v3 &&
  (Z.lor (Z.shiftl (Z.shiftr x 2) 2) (Z.shiftr v2 4) =? x) &&
  (Z.land v2 15 =? Z.shiftr y 4) &&
  (Z.lor (Z.shiftl (Z.shiftr x 4) 4) (Z.shiftr v3 2) =? x) &&
  (Z.land v3 3 =? Z.shiftr y 6).

Lemma byte1_all : forallb byte1_ok bytes256 = true.
Proof. vm_compute. reflexivity. Qed.

Lemma byte2_all : forallb (fun x => forallb (byte2_ok x) bytes256) bytes256 = true.
Proof. vm_compute. reflexivity. Qed.

Lemma byte1_facts (x : Z) : 0 <= x < 256 ->
  0 <= Z.shiftr x 2 < 64 /\ 0 <= Z.land x 63 < 64 /\ 0 <= Z.shiftl (Z.land x 3) 4 < 64 /\
  0 <= Z.shiftl (Z.land x 15) 2 < 64 /\
  Z.lor (Z.shiftl (Z.shiftr x 6) 6) (Z.land x 63) = x /\
  Z.lor (Z.shiftl (Z.shiftr x 2) 2) (Z.shiftr (Z.shiftl (Z.land x 3) 4) 4) = x /\
  Z.lor (Z.shiftl (Z.shiftr x 4) 4) (Z.shiftr (Z.shiftl (Z.land x 15) 2) 2) = x.
Proof.
  intros Hx. pose proof (forallb_range _ 256 byte1_all x Hx) as H.
  unfold byte1_ok, in64 in H. repeat rewrite andb_true_iff in H.
  rewrite !Z.leb_le, !Z.ltb_lt, !Z.eqb_eq in H. decompose [and] H. repeat split; assumption.
Qed.

Lemma byte2_facts (x y : Z) : 0 <= x < 256 -> 0 <= y < 256 ->
  let v2 := Z.lor (Z.shiftl (Z.land x 3) 4) (Z.shiftr y 4) in
  let v3 := Z.lor (Z.shiftl (Z.land x 15) 2) (Z.shiftr y 6) in
  0 <= v2 < 64 /\ 0 <= v3 < 64 /\
  Z.lor (Z.shiftl (Z.shiftr x 2) 2) (Z.shiftr v2 4) = x /\
  Z.land v2 15 = Z.shiftr y 4 /\
  Z.lor (Z.shiftl (Z.shiftr x 4) 4) (Z.shiftr v3 2) = x /\
  Z.land v3 3 = Z.shiftr y 6.
Proof.
  intros Hx Hy. pose proof (forallb_range _ 256 byte2_all x Hx) as H. cbv beta in H.
  pose proof (forallb_range _ 256 H y Hy) as H'.
  unfold byte2_ok, in64 in H'. repeat rewrite andb_true_iff in H'.
  rewrite !Z.leb_le, !Z.ltb_lt, !Z.eqb_eq in H'. decompose [and] H'. repeat split; assumption.
Qed.

(** The encoder's output without its ["="] padding, and the padding. *)
Fixpoint enc_core (b : bytes) : list ascii :=
  match b with
  | [] => []
  | [x] => [enc_char (Z.shiftr x 2); enc_char (Z.shiftl (Z.land x 3) 4)]
  | [x; y] =>
      [enc_char (Z.shiftr x 2); enc_char (Z.lor (Z.shiftl (Z.land x 3) 4) (Z.shiftr y 4));
       enc_char (Z.shiftl (Z.land y 15) 2)]
  | x :: y :: z :: rest =>
      enc_char (Z.shiftr x 2) :: enc_char (Z.lor (Z.shiftl (Z.land x 3) 4) (Z.shiftr y 4))
      :: enc_char (Z.lor (Z.shiftl (Z.land y 15) 2) (Z.shiftr z 6))
      :: enc_char (Z.land z 63) :: enc_core rest
  end.

Fixpoint npad (b : bytes) : nat :=
  match b with
  | [] => 0%nat
  | [_] => 2%nat
  | [_; _] => 1%nat
  | _ :: _ :: _ :: rest => npad rest
  end.

Definition byte_range (z : Z) : Prop := 0 <= z < 256.

Lemma encode_split (b : bytes) :
  encode_chars b = enc_core b ++ repeat "="%char (npad b).
Proof.
  induction b using bytes3_ind; try reflexivity.
  simpl. rewrite IHb. reflexivity.
Qed.

Lemma enc_core_pad (b : bytes) :
  Z.to_nat ((4 - Z.of_nat (List.length (enc_core b)) mod 4) mod 4) = npad b.
Proof.
  induction b using bytes3_ind; try reflexivity.
  simpl enc_core. simpl npad. rewrite <- IHb. f_equal.
  cbn [List.length]. set (n := List.length (enc_core b)).
  replace (Z.of_nat (S (S (S (S n))))) with (Z.of_nat n + 1 * 4) by lia.
  rewrite Z_mod_plus_full. reflexivity.
Qed.

(** Every character of [enc_core] is a sextet's character. *)
Lemma enc_core_chars (b : bytes) :
  Forall byte_range b -> Forall (fun c => exists v, 0 <= v < 64 /\ c = enc_char v) (enc_core b).
Proof.
  induction b using bytes3_ind; intros Hb; unfold byte_range in Hb.
  - constructor.
  - inversion Hb as [|? ? Hx _]; subst. destruct (byte1_facts x Hx) as (H1 & _ & H3 & _).
    repeat constructor; eauto.
  - inversion Hb as [|? ? Hx Hb']; subst. inversion Hb' as [|? ? Hy _]; subst.
    destruct (byte1_facts x Hx) as (H1 & _). destruct (byte1_facts y Hy) as (_ & _ & _ & H4 & _).
    destruct (byte2_facts x y Hx Hy) as (H2 & _).
    repeat constructor; eauto.
  - inversion Hb as [|? ? Hx Hb1]; subst. inversion Hb1 as [|? ? Hy Hb2]; subst.
    inversion Hb2 as [|? ? Hz Hr]; subst.
    destruct (byte1_facts x Hx) as (H1 & _). destruct (byte1_facts z Hz) as (_ & H4 & _).
    destruct (byte2_facts x y Hx Hy) as (H2 & _). destruct (byte2_facts y z Hy Hz) as (_ & H3 & _).
    simpl. repeat constructor; eauto.
Qed.

Lemma rstrip_eq_pad (D : list ascii) (k : nat) :
  Forall (fun c => Ascii.eqb c "="%char = false) D -> rstrip_eq (D ++ repeat "="%char k) = D.
Proof.
  intros HD. unfold rstrip_eq. rewrite rev_app_distr, rev_repeat.
  assert (Hr : Forall (fun c => Ascii.eqb c "="%char = false) (rev D))
    by (apply Forall_rev; exact HD).
  induction k as [|k IH].
  - simpl. destruct (rev D) as [|c r] eqn:E.
    + apply (f_equal (@rev ascii)) in E. rewrite rev_involutive in E. subst D. reflexivity.
    + inversion Hr as [|? ? Hc _]; subst. rewrite Hc.
      rewrite <- E. apply rev_involutive.
  - exact IH.
Qed.

(** One character of the decoding loop, by position in the quad. *)
Lemma a2b_q0 (v : Z) cs l p out : 0 <= v < 64 ->
  a2b_loop (enc_char v :: cs) 0 l p out = a2b_loop cs 1 v 0 out.
Proof. intros Hv. destruct (sextet_facts v Hv) as (H1 & H2 & _). simpl. rewrite H2, H1. reflexivity. Qed.

Lemma a2b_q1 (v : Z) cs l p out : 0 <= v < 64 ->
  a2b_loop (enc_char v :: cs) 1 l p out =
  a2b_loop cs 2 (Z.land v 15) 0 (Z.lor (Z.shiftl l 2) (Z.shiftr v 4) :: out).
Proof. intros Hv. destruct (sextet_facts v Hv) as (H1 & H2 & _). simpl. rewrite H2, H1. reflexivity. Qed.

Lemma a2b_q2 (v : Z) cs l p out : 0 <= v < 64 ->
  a2b_loop (enc_char v :: cs) 2 l p out =
  a2b_loop cs 3 (Z.land v 3) 0 (Z.lor (Z.shiftl l 4) (Z.shiftr v 2) :: out).
Proof. intros Hv. destruct (sextet_facts v Hv) as (H1 & H2 & _). simpl. rewrite H2, H1. reflexivity. Qed.

Lemma a2b_q3 (v : Z) cs l p out : 0 <= v < 64 ->
  a2b_loop (enc_char v :: cs) 3 l p out = a2b_loop cs 0 0 0 (Z.lor (Z.shiftl l 6) v :: out).
Proof. intros Hv. destruct (sextet_facts v Hv) as (H1 & H2 & _). simpl. rewrite H2, H1. reflexivity. Qed.

Lemma a2b_pad2 cs l out : a2b_loop ("="%char :: "="%char :: cs) 2 l 0 out = ret (rev out).
Proof. reflexivity. Qed.

Lemma a2b_pad1 cs l out : a2b_loop ("="%char :: cs) 3 l 0 out = ret (rev out).
Proof. reflexivity. Qed.

Lemma a2b_encode (b : bytes) :
  Forall byte_range b -> forall out, a2b_loop (encode_chars b) 0 0 0 out = ret (rev out ++ b).
Proof.
  induction b using bytes3_ind; intros Hb out; unfold byte_range in Hb.
  - simpl. rewrite app_nil_r. reflexivity.
  - inversion Hb as [|? ? Hx _]; subst. destruct (byte1_facts x Hx) as (H1 & _ & H3 & _ & _ & E & _).
    cbn [encode_chars]. rewrite a2b_q0, a2b_q1, a2b_pad2 by assumption.
    cbn [rev app]. rewrite E. reflexivity.
  - inversion Hb as [|? ? Hx Hb']; subst. inversion Hb' as [|? ? Hy _]; subst.
    destruct (byte1_facts x Hx) as (H1 & _). destruct (byte1_facts y Hy) as (_ & _ & _ & H4 & _ & _ & Ey).
    destruct (byte2_facts x y Hx Hy) as (H2 & _ & Ex & L2 & _).
    cbn [encode_chars]. rewrite a2b_q0, a2b_q1, a2b_q2, a2b_pad1 by assumption.
    cbn [rev]. rewrite <- !app_assoc. cbn [app]. rewrite Ex, L2, Ey. reflexivity.
  - inversion Hb as [|? ? Hx Hb1]; subst. inversion Hb1 as [|? ? Hy Hb2]; subst.
    inversion Hb2 as [|? ? Hz Hr]; subst.
    destruct (byte1_facts x Hx) as (H1 & _). destruct (byte1_facts z Hz) as (_ & H4 & _ & _ & Ez & _).
    destruct (byte2_facts x y Hx Hy) as (H2 & _ & Ex & L2 & _).
    destruct (byte2_facts y z Hy Hz) as (_ & H3 & _ & _ & Ey & L3).
    cbn [encode_chars]. rewrite a2b_q0, a2b_q1, a2b_q2, a2b_q3 by assumption.
    rewrite IHb by exact Hr. cbn [rev]. rewrite <- !app_assoc. cbn [app].
    rewrite Ex, L2, Ey, L3, Ez. reflexivity.
Qed.

Lemma enc_core_no_eq (b : bytes) :
  Forall byte_range b -> Forall (fun c => Ascii.eqb c "="%char = false) (enc_core b).
Proof.
  intros Hb. eapply Forall_impl; [|exact (enc_core_chars b Hb)].
  intros c (v & Hv & ->). apply (sextet_facts v Hv).
Qed.

Lemma b64url_encode_core (b : bytes) :
  Forall byte_range b -> b64url_encode b = string_of_list (enc_core b).
Proof.
  intros Hb. unfold b64url_encode. rewrite encode_split, rstrip_eq_pad; [reflexivity|].
  apply enc_core_no_eq. exact Hb.
Qed.

Lemma encode_chars_ascii (b : bytes) :
  Forall byte_range b -> existsb (fun c => 128 <=? byte_of_ascii c) (encode_chars b) = false.
Proof.
  intros Hb. rewrite encode_split, existsb_app. apply orb_false_intro.
  - apply not_true_is_false. intros H. apply existsb_exists in H as (c & Hc & Hlt).
    pose proof (enc_core_chars b Hb) as HF. rewrite Forall_forall in HF.
    destruct (HF c Hc) as (v & Hv & ->). destruct (sextet_facts v Hv) as (_ & _ & _ & H).
    apply Z.leb_le in Hlt. lia.
  - induction (npad b); [reflexivity|]. exact IHn.
Qed.

(** [_b64url_decode(_b64url_encode(b)) == b] for every byte string. *)
Lemma b64url_roundtrip (b : bytes) :
  Forall byte_range b -> b64url_decode (b64url_encode b) = ret b.
Proof.
  intros Hb. rewrite b64url_encode_core by exact Hb. unfold b64url_decode.
  rewrite string_of_list_length, enc_core_pad, eqs_repeat, string_of_list_app, <- encode_split.
  unfold urlsafe_b64decode. rewrite list_string_list, encode_chars_ascii by exact Hb.
  rewrite a2b_encode by exact Hb. reflexivity.
Qed.


End B64Props.


(* ------------------------------------------------------------------ *)
(** ** Round trip of [json.dumps] and [json.loads] *)

Module JsonProps.
Import Json B64Props Policy.

(** Induction on JSON values through the items of lists and dicts. *)
Section JInd.
Variable P : jvalue -> Prop.
Hypothesis HNull : P JNull.
Hypothesis HBool : forall b, P (JBool b).
Hypothesis HInt : forall z, P (JInt z).
Hypothesis HStr : forall s, P (JStr s).
Hypothesis HList : forall l, Forall P l -> P (JList l).
Hypothesis HObj : forall kvs, Forall (fun kv => P (snd kv)) kvs -> P (JObj kvs).

End JInd.
















































End JsonProps.

(* ------------------------------------------------------------------ *)
(** ** The opt-out token round trip of [policy.py] *)

Module TokenProps.
Import Json Policy B64 B64Props JsonProps.











End TokenProps.

(* ------------------------------------------------------------------ *)
(** ** The two scorers of [statistical.py] on long inputs *)

Module ScoreProps.
Import Statistical.






















End ScoreProps.

(* ------------------------------------------------------------------ *)
(** ** Reads of [registry/chain.py]: [lookup], [lookup_tx], [verify],
    [chain_length], over the [get_block_by_*] helpers of [registry/db.py] *)

Module ChainReads.
Import Chain.

(** [ChainRecord], built by [SimulatedChain._row_to_record]. *)
Record ChainRecord := mkRecord {
  rec_block_num : Z;
  rec_prev_hash : string;
  rec_tx_hash : string;
  rec_data_hash : string;
  rec_issuer_id : Z;
  rec_signature_hex : string;
  rec_timestamp : string
}.

Definition row_to_record (b : block) : ChainRecord :=
  mkRecord (block_num b) (prev_hash b) (tx_hash b) (data_hash b) (issuer_id b)
    (signature_hex b) (timestamp b).

(** [get_block_by_data_hash]: [WHERE data_hash = ?], [fetchone()]; the
    column has no index, so the scan meets the rows in [block_num] order. *)
Definition get_block_by_data_hash (st : store) (dh : string) : option block :=
  find (fun b => String.eqb (data_hash b) dh) (blocks st).


(** [SimulatedChain.lookup] *)
Definition lookup (st : store) (dh : string) : option ChainRecord :=
  match get_block_by_data_hash st dh with
  | None => None
  | Some row => Some (row_to_record row)
  end.


(** [SimulatedChain.verify] *)
Definition verify (st : store) (dh tx : string) : bool :=
  match get_block_by_data_hash st dh with
  | None => false
  | Some row => String.eqb (tx_hash row) tx
  end.

(** [SimulatedChain.chain_length]: a row count of the table. *)
Definition chain_length (st : store) : Z := Z.of_nat (List.length (blocks st)).

(** The [prev_hash] the next [anchor] links to. *)
Definition tip_hash (st : store) : string :=
  match get_latest_block st with Some b => tx_hash b | None => GENESIS_PREV_HASH end.

(** [prev_hash] linkage of a run of rows, starting from [p]. *)
Fixpoint linked (p : string) (bs : list block) : bool :=
  match bs with
  | [] => true
  | b :: bs' => String.eqb (prev_hash b) p && linked (tx_hash b) bs'
  end.

Fixpoint last_tx (p : string) (bs : list block) : string :=
  match bs with [] => p | b :: bs' => last_tx (tx_hash b) bs' end.

(** The invariant the table keeps under [anchor]: linked from the genesis
    hash, rows numbered [1, 2, ...] and the AUTOINCREMENT counter equal to
    the number of rows. *)
Definition chain_inv (st : store) : Prop :=
  linked GENESIS_PREV_HASH (blocks st) = true /\
  map block_num (blocks st) = map Z.of_nat (List.seq 1 (List.length (blocks st))) /\
  seq st = Z.of_nat (List.length (blocks st)).

Lemma check_links_linked (b : block) (rest : list block) :
  check_links b rest = None <-> linked (tx_hash b) rest = true.
Proof.
  revert b; induction rest as [|b' rest IH]; intros b; simpl.
  - split; reflexivity.
  - destruct (String.eqb (prev_hash b') (tx_hash b)); simpl.
    + apply IH.
    + split; discriminate.
Qed.

Lemma linked_app (p : string) (bs : list block) (b : block) :
  linked p (bs ++ [b]) = linked p bs && String.eqb (prev_hash b) (last_tx p bs).
Proof.
  revert p; induction bs as [|b0 bs IH]; intros p; simpl.
  - now rewrite !andb_true_r.
  - rewrite IH. now rewrite andb_assoc.
Qed.

Lemma last_map_some (bs : list block) (p : string) :
  match last (map Some bs) None with Some b => tx_hash b | None => p end = last_tx p bs.
Proof.
  revert p; induction bs as [|b0 bs IH]; intros p; [reflexivity|].
  destruct bs as [|b1 bs]; [reflexivity|].
  change (last (map Some (b0 :: b1 :: bs)) None) with (last (map Some (b1 :: bs)) None).
  rewrite (IH p). reflexivity.
Qed.

Lemma tip_hash_last (st : store) : tip_hash st = last_tx GENESIS_PREV_HASH (blocks st).
Proof. unfold tip_hash, get_latest_block. apply last_map_some. Qed.

Lemma find_app_none {T : Type} (f : T -> bool) (l : list T) (x : T) :
  existsb f l = false -> f x = true -> find f (l ++ [x]) = Some x.
Proof.
  induction l as [|y l IH]; simpl; intros H Hx.
  - now rewrite Hx.
  - apply orb_false_iff in H as [Hy Hl]. rewrite Hy. now apply IH.
Qed.

Lemma find_app_some {T : Type} (f : T -> bool) (l : list T) (x : T) :
  existsb f l = true -> find f (l ++ [x]) = find f l.
Proof.
  induction l as [|y l IH]; simpl; intros H; [discriminate|].
  destruct (f y); [reflexivity|]. now apply IH.
Qed.

Lemma find_existsb_some {T : Type} (f : T -> bool) (l : list T) :
  existsb f l = true -> exists y, find f l = Some y /\ In y l /\ f y = true.
Proof.
  induction l as [|y l IH]; simpl; intros H; [discriminate|].
  case_eq (f y); intros Hy.
  - exists y; auto.
  - rewrite Hy in H. destruct (IH H) as (z & Hz & Hi & Hf). exists z; auto.
Qed.

(** The outcome of [anchor], unfolded. *)
Lemma anchor_cases (st : store) (dh : string) (iid : Z) (sig pj ts now : string) :
  let tx := Sha256.hexdigest (encode (tip_hash st ++ dh ++ str_of_int iid ++ ts)%string) in
  anchor st dh iid sig pj ts now =
  if existsb (fun b => String.eqb (tx_hash b) tx) (blocks st) then raise IntegrityError
  else ret (mkReceipt tx (seq st + 1) dh iid ts,
            mkStore (blocks st ++ [mkBlock (seq st + 1) (tip_hash st) tx dh iid sig pj now])
                    (seq st + 1)).
Proof.
  cbv zeta. unfold anchor, insert_block. fold (tip_hash st).
  destruct (existsb _ _); reflexivity.
Qed.

Lemma anchor_inv (st : store) (c : anchor_call) (r : receipt) (st' : store) :
  chain_inv st -> anchor_call_on st c = ret (r, st') -> chain_inv st'.
Proof.
  intros (Hl & Hn & Hs) H. unfold anchor_call_on in H. rewrite anchor_cases in H.
  destruct (existsb _ _); [discriminate|]. injection H as <- <-.
  unfold chain_inv; cbn [blocks seq]. rewrite length_app. cbn [List.length].
  split; [|split].
  - rewrite linked_app, Hl, <- tip_hash_last, String.eqb_refl. reflexivity.
  - rewrite map_app, Hn, seq_app, map_app. f_equal. cbn [List.seq map block_num].
    rewrite Hs. f_equal. lia.
  - rewrite Hs. lia.
Qed.

Lemma run_inv (st : store) (cs : list anchor_call) : chain_inv st -> chain_inv (run st cs).
Proof.
  revert st; induction cs as [|c cs IH]; intros st Hi; simpl; [exact Hi|].
  case_eq (anchor_call_on st c); [intros e He; now apply IH|].
  intros [r st'] He. apply IH. exact (anchor_inv st c r st' Hi He).
Qed.

Lemma existsb_false_in {T : Type} (f : T -> bool) (l : list T) (y : T) :
  existsb f l = false -> In y l -> f y = false.
Proof.
  intros H Hy. case_eq (f y); intros Hf; [|reflexivity].
  rewrite <- H. symmetry. apply existsb_exists. now exists y.
Qed.

(** A chain built by any sequence of [anchor] calls from the empty table
    passes [validate_chain], and its blocks are numbered [1..n]. *)
Theorem run_validate_chain (cs : list anchor_call) :
  let st := run empty_store cs in
  validate_chain st =
    (true, match blocks st with
           | [] => "empty chain"%string
           | _ => ("valid chain with " ++ str_of_int (chain_length st) ++ " blocks")%string
           end) /\
  map block_num (blocks st) = map Z.of_nat (List.seq 1 (List.length (blocks st))).
Proof.
  intros st.
  assert (Hi : chain_inv st).
  { apply run_inv. unfold chain_inv; simpl. repeat split. }
  destruct Hi as (Hl & Hn & _). split; [|exact Hn].
  unfold validate_chain, chain_length.
  destruct (blocks st) as [|b0 rest]; [reflexivity|].
  cbn [linked] in Hl. apply andb_prop in Hl as [Hg Hr].
  rewrite Hg. cbn [negb].
  apply (proj2 (check_links_linked b0 rest)) in Hr. rewrite Hr. reflexivity.
Qed.


(** After a successful [anchor] of [dh], [verify dh tx] with the new
    receipt's [tx_hash] holds exactly when [dh] had not been anchored
    before; [lookup dh] keeps returning the first block anchored for [dh]. *)
Theorem anchor_verify (st : store) (dh : string) (iid : Z) (sig pj ts now : string) :
  match anchor st dh iid sig pj ts now with
  | inr (r, st') =>
      verify st' dh (r_tx_hash r) =
        negb (existsb (fun b => String.eqb (data_hash b) dh) (blocks st)) /\
      lookup st' dh =
        match lookup st dh with
        | Some rc => Some rc
        | None => Some (mkRecord (r_block_num r) (tip_hash st) (r_tx_hash r) dh iid sig now)
        end
  | inl _ => True
  end.
Proof.
  rewrite anchor_cases. cbv zeta.
  set (tx := Sha256.hexdigest _).
  case_eq (existsb (fun b => String.eqb (tx_hash b) tx) (blocks st)); intros Hx;
    [exact I|].
  cbn [ret r_tx_hash r_block_num].
  unfold verify, lookup, get_block_by_data_hash. cbn [blocks].
  case_eq (existsb (fun b => String.eqb (data_hash b) dh) (blocks st)); intros Hd.
  - rewrite find_app_some by exact Hd.
    destruct (find_existsb_some _ _ Hd) as (y & Hy & Hin & _). rewrite Hy.
    split; [|reflexivity]. cbn [negb].
    exact (existsb_false_in (fun b => String.eqb (tx_hash b) tx) _ y Hx Hin).
  - rewrite find_app_none by (exact Hd || apply String.eqb_refl).
    assert (Hn : find (fun b => String.eqb (data_hash b) dh) (blocks st) = None).
    { case_eq (find (fun b => String.eqb (data_hash b) dh) (blocks st)); [|reflexivity].
      intros y Hy. apply find_some in Hy as [Hin Hf].
      rewrite (existsb_false_in _ _ y Hd Hin) in Hf. discriminate. }
    rewrite Hn. cbn. rewrite String.eqb_refl. split; reflexivity.
Qed.
End ChainReads.

(* ------------------------------------------------------------------ *)
(** ** Shape of [hashlib.sha256] output and [auth.hash_text] *)

Module HashFacts.
Import B64Props TokenProps.



Lemma round_length (st : list Z) (kw : Z * Z) :
  List.length (Sha256.round st kw) = List.length st.
Proof.
  unfold Sha256.round.
  do 9 (destruct st as [|? st]; [reflexivity|]). reflexivity.
Qed.

Lemma rounds_length (kws : list (Z * Z)) (st : list Z) :
  List.length (fold_left Sha256.round kws st) = List.length st.
Proof.
  revert st; induction kws as [|kw kws IH]; intros st; [reflexivity|].
  simpl. rewrite IH. apply round_length.
Qed.

Lemma compress_length (hs : list Z) (b : bytes) :
  List.length (Sha256.compress hs b) = List.length hs.
Proof.
  unfold Sha256.compress. cbv zeta.
  rewrite length_map, length_combine, rounds_length. apply Nat.min_id.
Qed.

Lemma compresses_length (bs : list bytes) (hs : list Z) :
  List.length (fold_left Sha256.compress bs hs) = List.length hs.
Proof.
  revert hs; induction bs as [|b bs IH]; intros hs; [reflexivity|].
  simpl. rewrite IH. apply compress_length.
Qed.

Lemma words_length (ws : list Z) :
  List.length (flat_map Sha256.bytes_of_word ws) = (4 * List.length ws)%nat.
Proof.
  induction ws as [|w ws IH]; [reflexivity|].
  cbn [flat_map List.length]. rewrite length_app, IH. simpl. lia.
Qed.

Lemma digest_length (m : bytes) : List.length (Sha256.digest m) = 32%nat.
Proof.
  unfold Sha256.digest. cbv zeta.
  rewrite words_length, compresses_length. reflexivity.
Qed.




End HashFacts.

(* ------------------------------------------------------------------ *)
(** ** Company registration and issuer checks of [registry/auth.py] over
    the [companies] helpers of [registry/db.py] *)

Module Registry.
Import Auth.

(** The [companies] table: rows in [id] order and the AUTOINCREMENT
    counter of [sqlite_sequence]. *)
Record ctable := mkTable { rows : list company; cseq : Z }.





(** [get_company_by_issuer]: [WHERE issuer_id = ? AND active = 1],
    [fetchone()]. *)
Definition get_company_by_issuer (db : list company) (iid : Z) : option company :=
  find (fun c => (issuer_id c =? iid) && (active c =? 1)) db.

(** [deactivate_company]: [UPDATE companies SET active = 0 WHERE issuer_id = ?]. *)
Definition deactivate_company (t : ctable) (iid : Z) : ctable :=
  mkTable (map (fun c => if issuer_id c =? iid
                         then mkCompany (id c) (name c) (issuer_id c) (eth_address c)
                                (public_key_hex c) 0 (created_at c)
                         else c) (rows t))
          (cseq t).

(** [verify_signature(data_hash_hex, signature_hex, issuer_id)];
    [recover_signer] as in [verify_signature_by_address]. *)
Definition verify_signature (recover_signer : string -> string -> result string)
    (db : list company) (data_hash_hex signature_hex : string) (iid : Z)
    : option VerifiedSigner :=
  match recover_signer data_hash_hex signature_hex with
  | inl _ => None
  | inr recovered_address =>
      match get_company_by_issuer db iid with
      | None => None
      | Some company =>
          if negb (String.eqb (lower recovered_address) (lower (eth_address company)))
          then None
          else Some (signer_of company)
      end
  end.





Lemma find_deactivated (db : list company) (iid : Z) :
  find (fun c => (issuer_id c =? iid) && (active c =? 1))
    (map (fun c => if issuer_id c =? iid
                   then mkCompany (id c) (name c) (issuer_id c) (eth_address c)
                          (public_key_hex c) 0 (created_at c)
                   else c) db) = None.
Proof.
  induction db as [|c db IH]; [reflexivity|].
  cbn [map find]. case_eq (issuer_id c =? iid); intros Hc; cbn; rewrite ?Hc; exact IH.
Qed.

Lemma find_deactivated_other (db : list company) (iid j : Z) :
  j <> iid ->
  find (fun c => (issuer_id c =? j) && (active c =? 1))
    (map (fun c => if issuer_id c =? iid
                   then mkCompany (id c) (name c) (issuer_id c) (eth_address c)
                          (public_key_hex c) 0 (created_at c)
                   else c) db) =
  find (fun c => (issuer_id c =? j) && (active c =? 1)) db.
Proof.
  intros Hj. induction db as [|c db IH]; [reflexivity|].
  cbn [map find]. case_eq (issuer_id c =? iid); intros Hc; cbn; rewrite IH; [|reflexivity].
  replace (issuer_id c =? j) with false by lia. reflexivity.
Qed.

(** After [deactivate_company(iid)], [verify_signature] for [iid] returns
    [None] whatever the signature, and [get_company_by_issuer] for every
    other issuer id answers as before. *)
Theorem deactivate_company_revokes (t : ctable) (iid : Z)
    (recover_signer : string -> string -> result string) (dh sig : string) :
  verify_signature recover_signer (rows (deactivate_company t iid)) dh sig iid = None /\
  (forall j, j <> iid ->
     get_company_by_issuer (rows (deactivate_company t iid)) j = get_company_by_issuer (rows t) j).
Proof.
  split.
  - unfold verify_signature, get_company_by_issuer. cbn [rows deactivate_company].
    rewrite find_deactivated. destruct (recover_signer dh sig); reflexivity.
  - intros j Hj. unfold get_company_by_issuer. cbn [rows deactivate_company].
    apply find_deactivated_other. exact Hj.
Qed.

Lemma verify_signature_some (recover_signer : string -> string -> result string)
    (db : list company) (dh sig : string) (iid : Z) (s : VerifiedSigner) :
  verify_signature recover_signer db dh sig iid = Some s ->
  exists c addr,
    In c db /\ issuer_id c = iid /\ active c = 1 /\
    recover_signer dh sig = ret addr /\ lower addr = lower (eth_address c) /\
    s = mkSigner iid (name c) (eth_address c).
Proof.
  unfold verify_signature, get_company_by_issuer.
  destruct (recover_signer dh sig) as [e|addr]; [discriminate|].
  case_eq (find (fun c => (issuer_id c =? iid) && (active c =? 1)) db); [|discriminate].
  intros c Hf. apply find_some in Hf as [Hin Hc].
  apply andb_prop in Hc as [Hi Ha]. apply Z.eqb_eq in Hi, Ha.
  case_eq (String.eqb (lower addr) (lower (eth_address c))); intros Hl; cbn [negb];
    [|discriminate].
  intros H. injection H as <-. exists c, addr.
  apply String.eqb_eq in Hl. unfold signer_of. rewrite Hi. auto 7.
Qed.


(** A signer returned by [verify_signature] is an active company
    registered under the requested issuer id whose address equals the
    recovered one up to case. *)
Theorem verify_signature_sound (recover_signer : string -> string -> result string)
    (db : list company) (dh sig : string) (iid : Z) (s : VerifiedSigner) :
  verify_signature recover_signer db dh sig iid = Some s ->
  exists c addr,
    In c db /\ issuer_id c = iid /\ active c = 1 /\
    recover_signer dh sig = ret addr /\ lower addr = lower (eth_address c) /\
    s = mkSigner iid (name c) (eth_address c).
Proof. apply verify_signature_some. Qed.

Lemma verify_signature_sound_witness :
  verify_signature (fun _ _ => ret "0xAbC"%string)
    [mkCompany 1 "acme" 100 "0xabc" "04" 1 "2026-01-01 00:00:00"] "h" "s" 100 =
    Some (mkSigner 100 "acme" "0xabc") /\
  exists c addr,
    In c [mkCompany 1 "acme" 100 "0xabc" "04" 1 "2026-01-01 00:00:00"] /\
    issuer_id c = 100 /\ active c = 1 /\
    (fun _ _ => ret "0xAbC"%string) ("h"%string) ("s"%string) = ret addr /\
    lower addr = lower (eth_address c) /\
    mkSigner 100 "acme" "0xabc" = mkSigner 100 (name c) (eth_address c).
Proof.
  assert (H : verify_signature (fun _ _ => ret "0xAbC"%string)
    [mkCompany 1 "acme" 100 "0xabc" "04" 1 "2026-01-01 00:00:00"] "h" "s" 100 =
    Some (mkSigner 100 "acme" "0xabc")) by reflexivity.
  split; [exact H|]. exact (verify_signature_sound _ _ _ _ _ _ H).
Defined.
End Registry.

(* ------------------------------------------------------------------ *)
(** ** [watermark_llamacpp/keys.py]: [hkdf_sha256], [derive_step_key],
    [get_master_key] *)

Module KeySchedule.
Import B64Props TokenProps HashFacts.

(** [if not salt: salt = b"\x00" * hashlib.sha256().digest_size] *)
Definition default_salt (salt : bytes) : bytes :=
  match salt with [] => repeat 0 32 | _ => salt end.

(** The [while len(okm) < length] loop.  [bytes([counter])] raises
    [ValueError] once [counter] reaches 256; starting from [counter = 1],
    256 units of fuel reach that point, so the fuel never runs out first. *)
Fixpoint expand (fuel : nat) (prk info okm t : bytes) (counter length : Z) : result bytes :=
  match fuel with
  | O => raise ValueError
  | S f =>
      if Z.of_nat (List.length okm) <? length then
        if 256 <=? counter then raise ValueError
        else
          let t' := Sha256.hmac prk (t ++ info ++ [counter]) in
          expand f prk info (okm ++ t') t' (counter + 1) length
      else ret okm
  end.

(** [b[:n]] for bytes: a negative [n] counts from the end. *)
Definition prefix (n : Z) (b : bytes) : bytes :=
  if 0 <=? n then firstn (Z.to_nat n) b
  else firstn (List.length b - Z.to_nat (- n)) b.

(** [hkdf_sha256(ikm, info, length, salt)] *)
Definition hkdf_sha256 (ikm info : bytes) (length : Z) (salt : bytes) : result bytes :=
  let prk := Sha256.hmac (default_salt salt) ikm in
  okm <- expand 256 prk info [] [] 1 length ;;
  ret (prefix length okm).


(** The output blocks [T(1) || ... || T(k)] of the expand step, with the
    last block [T(k)]. *)
Fixpoint okm_after (prk info : bytes) (k : nat) : bytes * bytes :=
  match k with
  | O => ([], [])
  | S k' =>
      let p := okm_after prk info k' in
      let t' := Sha256.hmac prk (snd p ++ info ++ [Z.of_nat k' + 1]) in
      (fst p ++ t', t')
  end.

Lemma okm_after_length (prk info : bytes) (k : nat) :
  List.length (fst (okm_after prk info k)) = (32 * k)%nat.
Proof.
  induction k as [|k IH]; [reflexivity|].
  cbn [okm_after fst]. rewrite length_app, IH.
  unfold Sha256.hmac. rewrite digest_length. lia.
Qed.

Lemma okm_after_prefix (prk info : bytes) (k j : nat) :
  exists s, fst (okm_after prk info (k + j)) = fst (okm_after prk info k) ++ s.
Proof.
  induction j as [|j [s IH]].
  - exists []. rewrite Nat.add_0_r, app_nil_r. reflexivity.
  - rewrite Nat.add_succ_r. cbn [okm_after fst]. rewrite IH.
    eexists. rewrite <- app_assoc. reflexivity.
Qed.

Lemma expand_spec (prk info : bytes) (L : Z) (j k : nat) :
  (k + j = 256)%nat -> (k <= 255)%nat ->
  (8160 < L ->
     expand j prk info (fst (okm_after prk info k)) (snd (okm_after prk info k))
       (Z.of_nat k + 1) L = raise ValueError) /\
  (L <= 8160 -> exists m, (k <= m <= 255)%nat /\ L <= 32 * Z.of_nat m /\
     (m = k \/ 32 * Z.of_nat m < L + 32) /\
     expand j prk info (fst (okm_after prk info k)) (snd (okm_after prk info k))
       (Z.of_nat k + 1) L = ret (fst (okm_after prk info m))).
Proof.
  revert k; induction j as [|j IH]; intros k Hkj Hk; [lia|].
  cbn [expand]. rewrite okm_after_length.
  case_eq (Z.of_nat (32 * k) <? L); intros Hl.
  - apply Z.ltb_lt in Hl.
    case_eq (256 <=? Z.of_nat k + 1); intros Hc.
    + apply Z.leb_le in Hc. split; [reflexivity|intros HL; lia].
    + apply Z.leb_gt in Hc.
      destruct (IH (S k)) as [IH1 IH2]; [lia|lia|].
      change (fst (okm_after prk info k) ++ Sha256.hmac prk (snd (okm_after prk info k) ++ info
                ++ [Z.of_nat k + 1]))
        with (fst (okm_after prk info (S k))).
      change (Sha256.hmac prk (snd (okm_after prk info k) ++ info ++ [Z.of_nat k + 1]))
        with (snd (okm_after prk info (S k))).
      replace (Z.of_nat k + 1 + 1) with (Z.of_nat (S k) + 1) by lia.
      split; [exact IH1|].
      intros HL. destruct (IH2 HL) as (m & Hm & Hle & Hor & He).
      exists m. split; [lia|]. split; [exact Hle|]. split; [|exact He].
      right. destruct Hor as [->|Hor]; lia.
  - apply Z.ltb_ge in Hl. split; [intros HL; lia|].
    intros _. exists k. split; [lia|]. split; [lia|]. split; [left; reflexivity|reflexivity].
Qed.

Lemma hkdf_closed (ikm info : bytes) (L : Z) (salt : bytes) :
  hkdf_sha256 ikm info L salt =
    if 8160 <? L then raise ValueError
    else ret (firstn (Z.to_nat L) (fst (okm_after (Sha256.hmac (default_salt salt) ikm) info 255))).
Proof.
  unfold hkdf_sha256. cbv zeta.
  set (prk := Sha256.hmac (default_salt salt) ikm).
  destruct (expand_spec prk info L 256 0 eq_refl (Nat.le_0_l _)) as [E1 E2].
  change (fst (okm_after prk info 0)) with (@nil Z) in E1, E2.
  change (snd (okm_after prk info 0)) with (@nil Z) in E1, E2.
  change (Z.of_nat 0 + 1) with 1 in E1, E2.
  case_eq (8160 <? L); intros HL.
  - apply Z.ltb_lt in HL. rewrite (E1 HL). reflexivity.
  - apply Z.ltb_ge in HL. destruct (E2 HL) as (m & Hm & Hle & Hor & ->).
    cbn [bind ret]. f_equal. unfold prefix.
    case_eq (0 <=? L); intros H0.
    + apply Z.leb_le in H0.
      destruct (okm_after_prefix prk info m (255 - m)) as [s Hs].
      replace (m + (255 - m))%nat with 255%nat in Hs by lia. rewrite Hs.
      rewrite firstn_app, okm_after_length.
      replace (Z.to_nat L - 32 * m)%nat with 0%nat by lia.
      rewrite app_nil_r. reflexivity.
    + apply Z.leb_gt in H0.
      assert (m = 0%nat) by (destruct Hor; lia). subst m.
      replace (Z.to_nat L) with 0%nat by lia. reflexivity.
Qed.

(** [hkdf_sha256] raises [ValueError] for a length above [255 * 32 = 8160]
    (at [bytes([256])]); otherwise it returns the first [length] bytes
    (none when [length <= 0]) of the fixed stream [T(1) || ... || T(255)],
    so a shorter request yields a prefix of a longer one. *)
Theorem hkdf_sha256_stream (ikm info : bytes) (L : Z) (salt : bytes) :
  hkdf_sha256 ikm info L salt =
    if 8160 <? L then raise ValueError
    else ret (firstn (Z.to_nat L) (fst (okm_after (Sha256.hmac (default_salt salt) ikm) info 255))).
Proof. apply hkdf_closed. Qed.

(** Up to [length = 8160], [hkdf_sha256] succeeds with exactly
    [max(length, 0)] bytes. *)
Theorem hkdf_sha256_length (ikm info : bytes) (L : Z) (salt : bytes) :
  L <= 8160 ->
  exists okm, hkdf_sha256 ikm info L salt = ret okm /\ List.length okm = Z.to_nat L.
Proof.
  intros HL. rewrite hkdf_closed.
  replace (8160 <? L) with false by lia.
  eexists. split; [reflexivity|].
  rewrite length_firstn, okm_after_length. lia.
Qed.

Lemma hkdf_sha256_length_witness :
  16 <= 8160 /\
  exists okm, hkdf_sha256 [1; 2; 3] [] 16 [] = ret okm /\ List.length okm = Z.to_nat 16.
Proof. split; [lia|]. apply hkdf_sha256_length. lia. Defined.









End KeySchedule.

(* ------------------------------------------------------------------ *)
(** ** [build_green_mask] of [watermark_llamacpp/statistical.py] *)

Module GreenMask.
Import Statistical.

(** Two's-complement wrap-around of torch's [int64] arithmetic. *)
Definition wrap64 (z : Z) : Z := (z + 2 ^ 63) mod 2 ^ 64 - 2 ^ 63.

(** [build_green_mask(vocab_size, seed=..., greenlist_ratio=..., device=...)]
    with [torch] present: [ids] is [torch.arange(vocab_size)] of dtype
    [int64], the products and sums wrap around as [int64] values.  What
    torch does where an [int64] tensor cannot hold the data (a negative
    [vocab_size] for [arange], a threshold outside [int64] in the final
    comparison) is left open as [torch_fail]. *)
Definition build_green_mask (torch_fail : result (list bool)) (vocab_size seed : Z)
    (greenlist_ratio : spec_float) : result (list bool) :=
  t <- threshold greenlist_ratio ;;
  if vocab_size <? 0 then torch_fail
  else
    let ids := range 0 vocab_size in
    let x := map (fun i => Z.lxor i (Z.land seed MASK63)) ids in
    let x := map (fun v => Z.land (wrap64 (wrap64 (A * v) + B)) MASK63) x in
    if (t <? - 2 ^ 63) || (2 ^ 63 <=? t) then torch_fail
    else ret (map (fun v => v <? t) x).

Lemma wrap64_mod (z : Z) : wrap64 z mod 2 ^ 63 = z mod 2 ^ 63.
Proof.
  unfold wrap64. rewrite (Z.mod_eq (z + 2 ^ 63) (2 ^ 64)) by lia.
  replace (z + 2 ^ 63 - 2 ^ 64 * ((z + 2 ^ 63) / 2 ^ 64) - 2 ^ 63)
    with (z + (- (2 * ((z + 2 ^ 63) / 2 ^ 64))) * 2 ^ 63) by ring.
  apply Z.mod_add. lia.
Qed.

Lemma torch_mix63 (v : Z) : Z.land (wrap64 (wrap64 (A * v) + B)) MASK63 = mix63 v.
Proof.
  rewrite GreenProps.mix63_mod. change MASK63 with (Z.ones 63).
  rewrite Z.land_ones by lia. rewrite wrap64_mod.
  rewrite <- Zplus_mod_idemp_l, wrap64_mod, Zplus_mod_idemp_l.
  rewrite <- (Zplus_mod_idemp_l (A * (v mod 2 ^ 63))), Zmult_mod_idemp_r, Zplus_mod_idemp_l.
  reflexivity.
Qed.

Lemma nth_map_range (f : Z -> bool) (V i : Z) :
  0 <= i < V -> nth (Z.to_nat i) (map f (range 0 V)) false = f i.
Proof.
  intros Hi. unfold range. rewrite map_map.
  rewrite (nth_indep _ false (f (0 + Z.of_nat 0))) by (rewrite length_map, length_seq; lia).
  rewrite (map_nth (fun x => f (0 + Z.of_nat x))), seq_nth by lia. f_equal. lia.
Qed.

(** For a non-negative [vocab_size] and a threshold that fits in [int64],
    [build_green_mask] returns one entry per token id, and entry [i] is
    [token_is_green(i, seed=seed, greenlist_ratio=greenlist_ratio)]. *)
Theorem build_green_mask_token_is_green (torch_fail : result (list bool)) (V seed : Z)
    (r : spec_float) (t : Z) :
  0 <= V -> threshold r = ret t -> - 2 ^ 63 <= t < 2 ^ 63 ->
  exists mask,
    build_green_mask torch_fail V seed r = ret mask /\
    List.length mask = Z.to_nat V /\
    forall i, 0 <= i < V -> token_is_green i seed r = ret (nth (Z.to_nat i) mask false).
Proof.
  intros HV Ht Hr. unfold build_green_mask. rewrite Ht. cbn [bind ret]. cbv beta.
  replace (V <? 0) with false by lia.
  replace ((t <? - 2 ^ 63) || (2 ^ 63 <=? t)) with false by lia.
  eexists. split; [reflexivity|]. split.
  - rewrite !length_map. apply SparseProps.range_length.
  - intros i Hi. unfold token_is_green. rewrite Ht. cbn [bind ret]. f_equal.
    rewrite map_map, map_map, nth_map_range by exact Hi. cbv beta.
    rewrite torch_mix63. reflexivity.
Qed.

Lemma build_green_mask_token_is_green_witness :
  (0 <= 8 /\ threshold (F64.lit 1 (-2)) = ret 2305843009213693952 /\
   - 2 ^ 63 <= 2305843009213693952 < 2 ^ 63) /\
  exists mask,
    build_green_mask (raise ValueError) 8 7 (F64.lit 1 (-2)) = ret mask /\
    List.length mask = Z.to_nat 8 /\
    forall i, 0 <= i < 8 ->
      token_is_green i 7 (F64.lit 1 (-2)) = ret (nth (Z.to_nat i) mask false).
Proof.
  split; [split; [lia|split; [vm_compute; reflexivity|lia]]|].
  apply (build_green_mask_token_is_green (raise ValueError) 8 7 (F64.lit 1 (-2))
           2305843009213693952); [lia|vm_compute; reflexivity|lia].
Defined.
End GreenMask.

(* ------------------------------------------------------------------ *)
(** ** [parse_effective_request] of [watermark_llamacpp/config.py]

    The payload is the ["watermark"] member of a request body parsed by
    [json.loads], as a [jvalue] (no floats); a JSON [null] or an absent
    member is Python's [None]. *)

Module Config.
Import Json Policy.


















End Config.

(* ------------------------------------------------------------------ *)
(** ** Opt-out tokens of [watermark_llamacpp/policy.py]: encoding and
    acceptance *)

Module TokenChecks.
Import Json Policy B64 B64Props.

(** [_b64url_decode(_b64url_encode(b)) == b] for all bytes [b]: the
    stripped ["="] padding is restored. *)
Theorem b64url_decode_encode (b : bytes) :
  Forall byte_range b -> b64url_decode (b64url_encode b) = ret b.
Proof. apply b64url_roundtrip. Qed.

Lemma b64url_decode_encode_witness :
  Forall byte_range [0; 255; 62; 63; 128] /\
  b64url_decode (b64url_encode [0; 255; 62; 63; 128]) = ret [0; 255; 62; 63; 128].
Proof.
  assert (H : Forall byte_range [0; 255; 62; 63; 128])
    by (repeat constructor; unfold byte_range; lia).
  split; [exact H|]. exact (b64url_decode_encode _ H).
Defined.



End TokenChecks.

(* ------------------------------------------------------------------ *)
(** ** [POST /api/registry/anchor] of [minimax-webui/app.py] over the
    [responses] helpers of [registry/db.py] *)

Module AnchorEndpoint.
Import Chain ChainReads HashFacts Auth Registry.








End AnchorEndpoint.
